(** * goodness-workflows: the Markdown marker rewriter and the PNG walker

    Shallow embedding of [bolder.go] (function [replaceInlineCodeWithBold])
    and of the PNG-to-JPEG directory walker, with the properties of the
    specification stated and settled against them. *)

From Stdlib Require Import Ascii String List Arith Bool Lia Sorted.
From stdpp Require Import gmap strings list.
Import ListNotations.

(** ** The marker rewriter of [bolder.go] *)

Module Bolder.

(** A Go string is a sequence of bytes and [input[i]] is a byte: the input is
    a [list ascii] (one [ascii] is one byte). *)
Definition text := list ascii.

Definition backtick : ascii := "`"%char.
Definition star : ascii := "*"%char.

Definition isBacktick (c : ascii) : bool := Ascii.eqb c backtick.

(** [input[j] == '`'], for an index [j] inside the string. *)
Definition backtickAt (input : text) (j : nat) : bool :=
  match nth_error input j with
  | Some c => isBacktick c
  | None => false
  end.

(** [i > 0 && input[i-1] == '`'] *)
Definition prevBacktick (input : text) (i : nat) : bool :=
  (0 <? i) && backtickAt input (i - 1).

(** [i < len(input)-1 && input[i+1] == '`']; the test runs inside the loop,
    where [len(input) >= 1], so the subtraction never goes below zero. *)
Definition nextBacktick (input : text) (i : nat) : bool :=
  (i <? length input - 1) && backtickAt input (i + 1).

(** What one iteration of the loop body does at cursor [i] with the flag
    [inCodeBlock]: the bytes appended to [result], the new flag, and the
    cursor as the body leaves it (the [for] clause then adds one). *)
Record effect := Effect {
  written : text;
  flag : bool;
  cursor : nat
}.

Definition body (input : text) (i : nat) (inCodeBlock : bool) : effect :=
  match nth_error input i with
  | None => Effect [] inCodeBlock i
  | Some c =>
    if isBacktick c then
      let prev := prevBacktick input i in
      let next := nextBacktick input i in
      if prev && next then
        if inCodeBlock
        then Effect [backtick; backtick; backtick] false (i + 1)
        else Effect [backtick; backtick] true (i + 1)
      else if prev || next then
        if negb inCodeBlock
        then Effect [c] inCodeBlock i
        else Effect [] inCodeBlock i
      else
        if negb inCodeBlock
        then Effect [star; star] inCodeBlock i
        else Effect [c] inCodeBlock i
    else Effect [c] inCodeBlock i
  end.

(** [for i := 0; i < len(input); i++ { body }], with [result] the builder.
    The cursor grows at every iteration, so [length input] iterations are
    always enough (lemma [loop_fuel] below). *)
Fixpoint loop (fuel : nat) (input : text) (i : nat) (inCodeBlock : bool)
    (result : text) : text :=
  match fuel with
  | O => result
  | S fuel' =>
    if i <? length input then
      let e := body input i inCodeBlock in
      loop fuel' input (S (cursor e)) (flag e) (result ++ written e)
    else result
  end.

Definition transform (input : text) : text :=
  loop (length input) input 0 false [].

Definition replaceInlineCodeWithBold (input : string) : string :=
  string_of_list_ascii (transform (list_ascii_of_string input)).

(** The iterations the loop runs, in order: the cursor, the flag on entry
    and what the body does there. *)
Record visit := Visit {
  at_index : nat;
  in_fence : bool;
  did : effect
}.

Fixpoint visits (fuel : nat) (input : text) (i : nat) (inCodeBlock : bool)
    : list visit :=
  match fuel with
  | O => []
  | S fuel' =>
    if i <? length input then
      let e := body input i inCodeBlock in
      Visit i inCodeBlock e :: visits fuel' input (S (cursor e)) (flag e)
    else []
  end.

Definition trace (input : text) : list visit :=
  visits (length input) input 0 false.

(** The same scan by recursion on the part of the input still to read:
    [prev] says whether the byte just before it is a backtick. *)
Definition skip1 (rest : text) : text :=
  match rest with
  | [] => rest
  | _ :: rest' => rest'
  end.

Definition startsBacktick (rest : text) : bool :=
  match rest with
  | d :: _ => isBacktick d
  | [] => false
  end.

Fixpoint scan (prev : bool) (inCodeBlock : bool) (rest : text) : text :=
  match rest with
  | [] => []
  | c :: rest' =>
    if isBacktick c then
      let next := startsBacktick rest' in
      if prev && next then
        (if inCodeBlock then [backtick; backtick; backtick]
         else [backtick; backtick])
        ++ scan true (negb inCodeBlock) (skip1 rest')
      else if prev || next then
        (if negb inCodeBlock then [c] else [])
        ++ scan true inCodeBlock rest'
      else
        (if negb inCodeBlock then [star; star] else [c])
        ++ scan true inCodeBlock rest'
    else c :: scan false inCodeBlock rest'
  end.

Definition count_backticks (t : text) : nat :=
  List.length (List.filter isBacktick t).

(** The bytes that are neither a backtick nor an asterisk, in order. *)
Definition isMarker (c : ascii) : bool := isBacktick c || Ascii.eqb c star.

Definition content (t : text) : text :=
  List.filter (fun c => negb (isMarker c)) t.

(** The number of backticks a text starts with, and the texts in which
    fewer than five backticks ever stand in a row. *)
Fixpoint leading (t : text) : nat :=
  match t with
  | c :: t' => if isBacktick c then S (leading t') else 0
  | [] => 0
  end.

Fixpoint short_runs (t : text) : bool :=
  match t with
  | [] => true
  | _ :: t' => (leading t <? 5) && short_runs t'
  end.

(** What the scan writes for a run of [n] backticks that starts a fresh run
    (no backtick before it), and the flag it leaves: the run holds
    [(n - 1) / 2] fence delimiters, each of which flips the flag. *)
Definition run_out (inCodeBlock : bool) (n : nat) : text :=
  scan false inCodeBlock (repeat backtick n).

Definition run_flag (inCodeBlock : bool) (n : nat) : bool :=
  if Nat.odd ((n - 1) / 2) then negb inCodeBlock else inCodeBlock.

(** The three ways the body treats a backtick at cursor [i]. *)
Definition isFence (input : text) (i : nat) : bool :=
  backtickAt input i && prevBacktick input i && nextBacktick input i.

Definition isBoundary (input : text) (i : nat) : bool :=
  backtickAt input i && xorb (prevBacktick input i) (nextBacktick input i).

Definition isLone (input : text) (i : nat) : bool :=
  backtickAt input i && negb (prevBacktick input i)
  && negb (nextBacktick input i).

Definition bytes (s : string) : text := list_ascii_of_string s.

(** The texts in which no two backticks stand next to each other, and the
    text in which every backtick is replaced by the bold marker. *)
Fixpoint lone_only (t : text) : bool :=
  match t with
  | [] => true
  | c :: t' => negb (isBacktick c && startsBacktick t') && lone_only t'
  end.

Definition embolden (t : text) : text :=
  flat_map (fun c => if isBacktick c then [star; star] else [c]) t.

Definition endsBacktick (t : text) : bool := startsBacktick (List.rev t).

Definition fence : text := [backtick; backtick; backtick].

End Bolder.

(** ** The PNG walker ([package main] with [ToJpeg]) *)

Module Walker.

Definition data := list ascii.

(** A path is the list of its elements below the file-system root.  Every
    path the program handles is [directoryPath] or comes from
    [filepath.Join] of a path and one name (a directory entry, or a base name
    with its extension replaced), so joining is appending one element and
    [filepath.Clean] has nothing to do. *)
Definition path := list string.

Definition Join (dir : path) (name : string) : path := dir ++ [name].

(** [filepath.Base]: the last element; the root alone gives the separator. *)
Definition Base (p : path) : string := List.last p "/"%string.

(** [filepath.Dir], used to say what a sibling path is. *)
Definition Dir (p : path) : path := removelast p.

Definition separator : ascii := "/"%char.
Definition dot : ascii := "."%char.

(** [filepath.Ext]: scan from the last byte towards the first, stop at a
    separator, and return the suffix that starts at the first dot met. *)
Fixpoint ext_from_end (reversed : list ascii) (suffix : list ascii)
    : list ascii :=
  match reversed with
  | [] => []
  | c :: before =>
    if Ascii.eqb c separator then []
    else if Ascii.eqb c dot then c :: suffix
    else ext_from_end before (c :: suffix)
  end.

Definition nameExt (name : string) : string :=
  string_of_list_ascii
    (ext_from_end (List.rev (list_ascii_of_string name)) []).

Definition Ext (p : path) : string := nameExt (Base p).

(** [baseName[:len(baseName)-len(extension)] + ".jpg"] *)
Definition jpgName (baseName extension : string) : string :=
  String.append
    (String.substring 0 (String.length baseName - String.length extension)
       baseName)
    ".jpg".

Inductive error :=
| ErrLstat (p : path)
| ErrReadDir (p : path)
| ErrRead (p : path)
| ErrDecode
| ErrEncode
| ErrWrite (p : path)
| ErrRemove (p : path).

(** What [os.WriteFile] does to the named file: it writes it, or fails
    before touching it, or fails after creating or truncating it and writing
    only the first [n] bytes. *)
Inductive write_result :=
| Written
| Refused
| Torn (n : nat).

(** The codecs and the operating system, as far as the program sees them. *)
Record platform := Platform {
  image : Type;
  png_Decode : data -> option image;
  jpeg_Encode : image -> option data;
  read_denied : path -> bool;
  write_outcome : path -> write_result;
  remove_denied : path -> bool
}.

Inductive message :=
| FailedRead (e : error)
| FailedConvert (e : error)
| FailedWrite (e : error)
| FailedDelete (e : error)
| Successful (outputPath : path)
| Fatal (e : error).

(** The regular files with their contents, and the lines logged or printed
    so far (oldest first). *)
Record world := World {
  files : gmap path data;
  lines : list message
}.

Definition say (m : message) (w : world) : world :=
  World (files w) (lines w ++ [m]).

Definition ReadFile (os : platform) (p : path) (w : world) : data + error :=
  match files w !! p with
  | Some d => if read_denied os p then inr (ErrRead p) else inl d
  | None => inr (ErrRead p)
  end.

Definition WriteFile (os : platform) (p : path) (d : data) (w : world)
    : option error * world :=
  match write_outcome os p with
  | Written => (None, World (<[p := d]> (files w)) (lines w))
  | Refused => (Some (ErrWrite p), w)
  | Torn n => (Some (ErrWrite p), World (<[p := firstn n d]> (files w)) (lines w))
  end.

Definition RemoveAll (os : platform) (p : path) (w : world)
    : option error * world :=
  if remove_denied os p then (Some (ErrRemove p), w)
  else (None, World (delete p (files w)) (lines w)).

(** [ToJpeg] converts a PNG image to JPEG format. *)
Definition ToJpeg (os : platform) (imageBytes : data) : data + error :=
  match png_Decode os imageBytes with
  | None => inr ErrDecode
  | Some img =>
    match jpeg_Encode os img with
    | None => inr ErrEncode
    | Some buf => inl buf
    end
  end.

Record FileInfo := { IsDir : bool }.

(** What [Walk] passes for a regular file: its [FileInfo], and a nil error. *)
Definition file : FileInfo + error := inl {| IsDir := false |}.

(** The function literal that [main] hands to [filepath.Walk].  [Walk] calls
    it either with the entry's [FileInfo] and a nil error, or with an error;
    the literal looks at [info] only when the error is nil. *)
Definition walkFn (os : platform) (directoryPath : path) (p : path)
    (arg : FileInfo + error) (w : world) : option error * world :=
  match arg with
  | inr err => (Some err, w)
  | inl info =>
    if IsDir info then (None, w)
    else
      let extension := Ext p in
      if String.eqb extension ".png" then
        match ReadFile os p w with
        | inr err => (None, say (FailedRead err) w)
        | inl imageBytes =>
          match ToJpeg os imageBytes with
          | inr err => (None, say (FailedConvert err) w)
          | inl jpegBytes =>
            let baseName := Base p in
            let outputPath :=
              Join directoryPath (jpgName baseName extension) in
            match WriteFile os outputPath jpegBytes w with
            | (Some err, w1) => (None, say (FailedWrite err) w1)
            | (None, w1) =>
              match RemoveAll os p w1 with
              | (Some err, w2) => (None, say (FailedDelete err) w2)
              | (None, w2) => (None, say (Successful outputPath) w2)
              end
            end
          end
        end
      else (None, w)
  end.

(** What [filepath.Walk] finds at a path: a regular file, a directory with
    the sorted names [readDirNames] returns and what is behind each name
    ([None] when the directory cannot be listed), or something [os.Lstat]
    fails on.  The literal only ever adds files to the root directory, whose
    names are read before any of them is visited, and removes the file it is
    visiting, so what [Walk] finds does not change during the walk. *)
#[local] Unset Elimination Schemes.
Inductive entry :=
| Regular
| Directory (listing : option (list (string * entry)))
| Unstatable.
#[local] Set Elimination Schemes.

(** [filepath.Walk] and its helper [walk]: the function is called on the
    entry, then on the entries below it in order; the first error it returns
    ends the walk.  (The literal never returns [SkipDir] or [SkipAll].) *)
Fixpoint walk (os : platform) (directoryPath : path) (p : path) (e : entry)
    (w : world) {struct e} : option error * world :=
  match e with
  | Unstatable => walkFn os directoryPath p (inr (ErrLstat p)) w
  | Regular => walkFn os directoryPath p (inl {| IsDir := false |}) w
  | Directory None => walkFn os directoryPath p (inr (ErrReadDir p)) w
  | Directory (Some names) =>
    match walkFn os directoryPath p (inl {| IsDir := true |}) w with
    | (Some err, w1) => (Some err, w1)
    | (None, w1) =>
      (fix each (l : list (string * entry)) (w : world) {struct l}
           : option error * world :=
         match l with
         | [] => (None, w)
         | (name, child) :: l' =>
           match walk os directoryPath (Join p name) child w with
           | (Some err, w') => (Some err, w')
           | (None, w') => each l' w'
           end
         end) names w1
    end
  end.

(** The loop over the names of one directory, on its own. *)
Fixpoint walkNames (os : platform) (directoryPath : path) (p : path)
    (l : list (string * entry)) (w : world) : option error * world :=
  match l with
  | [] => (None, w)
  | (name, child) :: l' =>
    match walk os directoryPath (Join p name) child w with
    | (Some err, w') => (Some err, w')
    | (None, w') => walkNames os directoryPath p l' w'
    end
  end.

Definition directoryPath : path :=
  ["Users"; "chukwuemeriwoukeje"; "Downloads"]%string.

(** [main], for any root: [log.Fatalf] prints and exits with status 1. *)
Definition run (os : platform) (root : path) (tree : entry) (w : world)
    : nat * world :=
  match walk os root root tree w with
  | (Some err, w') => (1, say (Fatal err) w')
  | (None, w') => (0, w')
  end.

Definition main (os : platform) (tree : entry) (w : world) : nat * world :=
  run os directoryPath tree w.





(** The literal applied to one regular file after the other. *)
Definition convertAll (os : platform) (root : path) (ps : list path)
    (w : world) : world :=
  fold_left (fun w q => snd (walkFn os root q file w)) ps w.

(** A platform on which every operation succeeds and the codecs copy the
    bytes, and a small tree with a PNG file in a subdirectory. *)
Definition plain : platform :=
  Platform data (fun d => Some d) (fun i => Some i)
    (fun _ => false) (fun _ => Written) (fun _ => false).

(** The same platform with every read denied, and a tree with a directory
    that cannot be listed between two files. *)
Definition locked : platform :=
  Platform data (fun d => Some d) (fun i => Some i)
    (fun _ => true) (fun _ => Written) (fun _ => false).

Definition private_tree : entry :=
  Directory (Some [("a.png"%string, Regular);
                   ("private"%string, Directory None);
                   ("z.png"%string, Regular)]).

Definition nested_tree : entry :=
  Directory (Some [("sub"%string,
                    Directory (Some [("a.png"%string, Regular)]))]).

Definition nested_png : path := Join (Join directoryPath "sub") "a.png".

Definition top_png : path := Join directoryPath "a.png".

Definition top_world : world :=
  World {[ top_png := ["P"; "N"; "G"]%char ]} [].

Definition nested_world : world :=
  World {[ nested_png := ["P"; "N"; "G"]%char ]} [].

(** The paths the literal converts, the lines other than the fatal one, and
    a second PNG file with the base name of [nested_png]. *)
Definition isPng (p : path) : bool := String.eqb (Ext p) ".png".

Definition isFatal (m : message) : bool :=
  match m with
  | Fatal _ => true
  | _ => false
  end.

Definition twin_tree : entry :=
  Directory (Some [("a.png"%string, Regular);
                   ("sub"%string,
                    Directory (Some [("a.png"%string, Regular)]))]).

Definition twin_world : world :=
  World (<[ top_png := ["O"; "N"; "E"]%char ]>
           {[ nested_png := ["T"; "W"; "O"]%char ]}) [].

End Walker.

(** ** Properties of the marker rewriter *)

Section BolderFacts.
Import Bolder.

Lemma nth_error_mid (pre : text) (c : ascii) (rest : text) :
  nth_error (pre ++ c :: rest) (length pre) = Some c.
Proof.
  rewrite nth_error_app2 by lia.
  replace (length pre - length pre) with 0 by lia. reflexivity.
Qed.

Lemma prevBacktick_app (pre suf : text) :
  prevBacktick (pre ++ suf) (length pre) = prevBacktick pre (length pre).
Proof.
  unfold prevBacktick, backtickAt.
  destruct pre as [|a pre]; [reflexivity|].
  cbn [length]. replace (0 <? S (length pre)) with true by reflexivity.
  cbn [andb]. rewrite nth_error_app1 by (cbn [length]; lia). reflexivity.
Qed.

Lemma prevBacktick_snoc (pre : text) (c : ascii) :
  prevBacktick (pre ++ [c]) (length (pre ++ [c])) = isBacktick c.
Proof.
  unfold prevBacktick, backtickAt. rewrite length_app. cbn [length].
  replace (0 <? length pre + 1) with true
    by (symmetry; apply Nat.ltb_lt; lia).
  replace (length pre + 1 - 1) with (length pre) by lia.
  rewrite nth_error_mid. reflexivity.
Qed.

Lemma nextBacktick_mid (pre : text) (c : ascii) (rest : text) :
  nextBacktick (pre ++ c :: rest) (length pre) = startsBacktick rest.
Proof.
  unfold nextBacktick, backtickAt. rewrite length_app. cbn [length].
  destruct rest as [|d rest'].
  - cbn [length startsBacktick].
    replace (length pre <? length pre + 1 - 1) with false
      by (symmetry; apply Nat.ltb_ge; lia).
    reflexivity.
  - cbn [length startsBacktick].
    replace (length pre <? length pre + S (S (length rest')) - 1) with true
      by (symmetry; apply Nat.ltb_lt; lia).
    cbn [andb].
    replace (pre ++ c :: d :: rest') with ((pre ++ [c]) ++ d :: rest')
      by (rewrite <- app_assoc; reflexivity).
    replace (length pre + 1) with (length (pre ++ [c]))
      by (rewrite length_app; reflexivity).
    rewrite nth_error_mid. reflexivity.
Qed.

(** The body at the cursor [length pre] of [pre ++ c :: rest], by cases. *)
Lemma body_mid (pre : text) (c : ascii) (rest : text) (cb : bool) :
  body (pre ++ c :: rest) (length pre) cb =
  if isBacktick c then
    if prevBacktick pre (length pre) && startsBacktick rest then
      if cb then Effect [backtick; backtick; backtick] false (length pre + 1)
      else Effect [backtick; backtick] true (length pre + 1)
    else if prevBacktick pre (length pre) || startsBacktick rest then
      if negb cb then Effect [c] cb (length pre) else Effect [] cb (length pre)
    else
      if negb cb then Effect [star; star] cb (length pre)
      else Effect [c] cb (length pre)
  else Effect [c] cb (length pre).
Proof.
  unfold body. rewrite nth_error_mid, prevBacktick_app, nextBacktick_mid.
  reflexivity.
Qed.

Lemma snoc_app (pre : text) (c : ascii) (rest : text) :
  pre ++ c :: rest = (pre ++ [c]) ++ rest.
Proof. rewrite <- app_assoc. reflexivity. Qed.

Lemma length_snoc (pre : text) (c : ascii) :
  length (pre ++ [c]) = S (length pre).
Proof. rewrite length_app. cbn [length]. lia. Qed.

(** One iteration moves the cursor over [c], or over [c] and the backtick
    after it. *)
Lemma loop_scan (fuel : nat) :
  forall (pre suf : text) (cb : bool) (res : text),
    length suf <= fuel ->
    loop fuel (pre ++ suf) (length pre) cb res =
    res ++ scan (prevBacktick pre (length pre)) cb suf.
Proof.
  induction fuel as [|fuel IH]; intros pre suf cb res Hlen.
  - destruct suf; [|cbn [length] in Hlen; lia].
    cbn. rewrite app_nil_r. reflexivity.
  - cbn [loop]. destruct suf as [|c rest].
    + rewrite !app_nil_r, Nat.ltb_irrefl. reflexivity.
    + replace (length pre <? length (pre ++ c :: rest)) with true
        by (symmetry; apply Nat.ltb_lt; rewrite length_app; cbn [length]; lia).
      cbn [length] in Hlen.
      rewrite body_mid. cbn [scan].
      destruct (isBacktick c) eqn:Hc.
      * destruct (prevBacktick pre (length pre)) eqn:Hp;
          destruct (startsBacktick rest) eqn:Hn; cbn [andb orb].
        -- destruct rest as [|d rest']; [discriminate Hn|].
           cbn [startsBacktick] in Hn. cbn [skip1 length] in *.
           replace (pre ++ c :: d :: rest') with (((pre ++ [c]) ++ [d]) ++ rest')
             by (rewrite <- !app_assoc; reflexivity).
           destruct cb; cbn [written flag cursor negb];
             (replace (S (length pre + 1)) with (length ((pre ++ [c]) ++ [d]))
               by (rewrite !length_snoc; lia));
             rewrite IH by lia; rewrite prevBacktick_snoc, Hn, <- app_assoc;
             reflexivity.
        -- destruct cb; cbn [written flag cursor negb];
             rewrite snoc_app, <- length_snoc with (c := c);
             rewrite IH by lia; rewrite prevBacktick_snoc, Hc, <- app_assoc;
             reflexivity.
        -- destruct cb; cbn [written flag cursor negb];
             rewrite snoc_app, <- length_snoc with (c := c);
             rewrite IH by lia; rewrite prevBacktick_snoc, Hc, <- app_assoc;
             reflexivity.
        -- destruct cb; cbn [written flag cursor negb];
             rewrite snoc_app, <- length_snoc with (c := c);
             rewrite IH by lia; rewrite prevBacktick_snoc, Hc, <- app_assoc;
             reflexivity.
      * cbn [written flag cursor].
        rewrite snoc_app, <- length_snoc with (c := c).
        rewrite IH by lia. rewrite prevBacktick_snoc, Hc, <- app_assoc.
        reflexivity.
Qed.

Lemma loop_from_start (fuel : nat) (input : text) :
  length input <= fuel ->
  loop fuel input 0 false [] = scan false false input.
Proof.
  intros H. exact (loop_scan fuel [] input false [] H).
Qed.

(** [length input] iterations are enough: more fuel changes nothing. *)
Lemma loop_fuel (input : text) (fuel : nat) :
  length input <= fuel ->
  loop fuel input 0 false [] = transform input.
Proof.
  intros H. unfold transform.
  rewrite !loop_from_start by lia. reflexivity.
Qed.

Lemma transform_scan (input : text) :
  transform input = scan false false input.
Proof. unfold transform. apply loop_from_start. lia. Qed.

(** *** The trace of iterations *)

Lemma loop_visits (fuel : nat) :
  forall (input : text) (i : nat) (cb : bool) (res : text),
    loop fuel input i cb res =
    res ++ concat (map (fun v => written (did v)) (visits fuel input i cb)).
Proof.
  induction fuel as [|fuel IH]; intros input i cb res; cbn [loop visits].
  - cbn. rewrite app_nil_r. reflexivity.
  - destruct (i <? length input).
    + rewrite IH. cbn [map concat did]. rewrite <- app_assoc. reflexivity.
    + cbn. rewrite app_nil_r. reflexivity.
Qed.

(** The output is what the iterations wrote, one after the other. *)
Lemma transform_trace (input : text) :
  transform input = concat (map (fun v => written (did v)) (trace input)).
Proof. unfold transform, trace. rewrite loop_visits. reflexivity. Qed.

Lemma visits_body (fuel : nat) :
  forall (input : text) (i : nat) (cb : bool) (v : visit),
    In v (visits fuel input i cb) ->
    at_index v < length input /\
    did v = body input (at_index v) (in_fence v).
Proof.
  induction fuel as [|fuel IH]; intros input i cb v Hin; cbn [visits] in Hin.
  - destruct Hin.
  - destruct (i <? length input) eqn:Hi; [|destruct Hin].
    destruct Hin as [<-|Hin].
    + cbn. split; [apply Nat.ltb_lt; exact Hi | reflexivity].
    + exact (IH _ _ _ _ Hin).
Qed.

Lemma trace_body (input : text) (v : visit) :
  In v (trace input) ->
  at_index v < length input /\
  did v = body input (at_index v) (in_fence v).
Proof. apply visits_body. Qed.

Lemma isBacktick_eq (c : ascii) : isBacktick c = true -> c = backtick.
Proof. unfold isBacktick. apply Ascii.eqb_eq. Qed.

Lemma backtickAt_nth (input : text) (i : nat) :
  backtickAt input i = true -> nth_error input i = Some backtick.
Proof.
  unfold backtickAt. destruct (nth_error input i) as [c|]; [|discriminate].
  intros H. apply isBacktick_eq in H. congruence.
Qed.

Lemma body_fence (input : text) (i : nat) (cb : bool) :
  isFence input i = true ->
  body input i cb =
  if cb then Effect [backtick; backtick; backtick] false (i + 1)
  else Effect [backtick; backtick] true (i + 1).
Proof.
  unfold isFence. intros H.
  apply andb_prop in H as [H Hn]. apply andb_prop in H as [Hb Hp].
  unfold body. rewrite (backtickAt_nth _ _ Hb), Hp, Hn. reflexivity.
Qed.

Lemma body_boundary (input : text) (i : nat) (cb : bool) :
  isBoundary input i = true ->
  body input i cb = Effect (if cb then [] else [backtick]) cb i.
Proof.
  unfold isBoundary. intros H. apply andb_prop in H as [Hb Hx].
  unfold body. rewrite (backtickAt_nth _ _ Hb).
  destruct (prevBacktick input i), (nextBacktick input i), cb;
    try discriminate Hx; reflexivity.
Qed.

Lemma body_lone (input : text) (i : nat) (cb : bool) :
  isLone input i = true ->
  body input i cb = Effect (if cb then [backtick] else [star; star]) cb i.
Proof.
  unfold isLone. intros H.
  apply andb_prop in H as [H Hn]. apply andb_prop in H as [Hb Hp].
  apply negb_true_iff in Hp, Hn.
  unfold body. rewrite (backtickAt_nth _ _ Hb), Hp, Hn.
  destruct cb; reflexivity.
Qed.

Lemma body_plain (input : text) (i : nat) (cb : bool) (c : ascii) :
  nth_error input i = Some c -> isBacktick c = false ->
  body input i cb = Effect [c] cb i.
Proof. intros Hc Hb. unfold body. rewrite Hc, Hb. reflexivity. Qed.

(** The only cursors the loop jumps over are the backticks that follow the
    middle backtick of a fence: a cursor with no backtick before it is always
    visited. *)
Lemma visits_reach (fuel : nat) :
  forall (pre suf : text) (cb : bool) (j : nat),
    length suf <= fuel ->
    length pre <= j < length (pre ++ suf) ->
    prevBacktick (pre ++ suf) j = false ->
    exists v, In v (visits fuel (pre ++ suf) (length pre) cb) /\ at_index v = j.
Proof.
  induction fuel as [|fuel IH]; intros pre suf cb j Hlen Hj Hprev.
  - destruct suf; [|cbn [length] in Hlen; lia].
    rewrite app_nil_r in Hj. lia.
  - destruct suf as [|c rest]; [rewrite app_nil_r in Hj; lia|].
    cbn [visits length] in *.
    replace (length pre <? length (pre ++ c :: rest)) with true
      by (symmetry; apply Nat.ltb_lt; lia).
    destruct (Nat.eq_dec j (length pre)) as [->|Hne].
    { eexists. split; [left; reflexivity | reflexivity]. }
    assert (Hstep : cursor (body (pre ++ c :: rest) (length pre) cb) = length pre
                    \/ (cursor (body (pre ++ c :: rest) (length pre) cb)
                          = length pre + 1
                        /\ isBacktick c = true
                        /\ exists d rest', rest = d :: rest')).
    { rewrite body_mid.
      destruct (isBacktick c); [|left; reflexivity].
      destruct (prevBacktick pre (length pre));
        destruct (startsBacktick rest) eqn:Hn; cbn [andb orb];
        destruct cb; cbn; try (left; reflexivity).
      all: right; split; [reflexivity|]; split; [reflexivity|].
      all: destruct rest as [|d rest']; [discriminate Hn | eauto]. }
    set (e := body (pre ++ c :: rest) (length pre) cb) in *.
    destruct Hstep as [-> | (-> & Hc & d & rest' & ->)].
    + rewrite snoc_app in *. rewrite <- length_snoc with (c := c).
      destruct (IH (pre ++ [c]) rest (flag e) j) as (v & Hv & Hat);
        [lia | rewrite length_snoc; lia | exact Hprev |].
      exists v. split; [right; exact Hv | exact Hat].
    + destruct (Nat.eq_dec j (length pre + 1)) as [->|Hne'].
      { exfalso. rewrite snoc_app in Hprev.
        replace (length pre + 1) with (length (pre ++ [c])) in Hprev
          by (rewrite length_snoc; lia).
        rewrite prevBacktick_app, prevBacktick_snoc in Hprev. congruence. }
      replace (pre ++ c :: d :: rest') with (((pre ++ [c]) ++ [d]) ++ rest') in *
        by (rewrite <- !app_assoc; reflexivity).
      replace (S (length pre + 1)) with (length ((pre ++ [c]) ++ [d]))
        by (rewrite !length_snoc; lia).
      cbn [length] in Hlen.
      destruct (IH ((pre ++ [c]) ++ [d]) rest' (flag e) j) as (v & Hv & Hat);
        [lia | rewrite !length_snoc; lia | exact Hprev |].
      exists v. split; [right; exact Hv | exact Hat].
Qed.

Lemma trace_reach (input : text) (j : nat) :
  j < length input ->
  prevBacktick input j = false ->
  exists v, In v (trace input) /\ at_index v = j.
Proof.
  intros Hj Hp. unfold trace.
  apply (visits_reach (length input) [] input false j); cbn; try lia; assumption.
Qed.

(** *** Induction over the scan, which reads one or two bytes at a time *)

Lemma text_ind2 (P : text -> Prop) :
  P [] ->
  (forall c rest, P rest -> P (skip1 rest) -> P (c :: rest)) ->
  forall t, P t.
Proof.
  intros Hnil Hstep t.
  assert (H : P t /\ P (skip1 t)).
  { induction t as [|c t [IH1 IH2]]; cbn [skip1]; split; auto. }
  exact (proj1 H).
Qed.

Lemma scan_no_backtick (t : text) :
  ~ In backtick t ->
  forall prev cb, scan prev cb t = t.
Proof.
  induction t as [|c t IH]; intros Hno prev cb; [reflexivity|].
  cbn [scan]. destruct (isBacktick c) eqn:Hc.
  - exfalso. apply Hno. left. apply isBacktick_eq. exact Hc.
  - rewrite IH; [reflexivity|]. intros Hin. apply Hno. right. exact Hin.
Qed.

Lemma content_cons (c : ascii) (t : text) :
  content (c :: t) = if negb (isMarker c) then c :: content t else content t.
Proof. reflexivity. Qed.

Lemma content_backtick (c : ascii) (t : text) :
  isBacktick c = true -> content (c :: t) = content t.
Proof.
  intros Hc. unfold content, isMarker. cbn [List.filter]. rewrite Hc.
  reflexivity.
Qed.

Lemma content_scan (t : text) :
  forall prev cb, content (scan prev cb t) = content t.
Proof.
  induction t as [|c rest IH1 IH2] using text_ind2; intros prev cb;
    [reflexivity|].
  cbn [scan]. destruct (isBacktick c) eqn:Hc.
  - rewrite (content_backtick c rest Hc).
    destruct (prev && startsBacktick rest) eqn:Hf.
    + apply andb_prop in Hf as [_ Hn].
      destruct rest as [|d rest']; [discriminate Hn|].
      cbn [startsBacktick skip1] in *.
      rewrite (content_backtick d rest' Hn).
      unfold content at 1. rewrite List.filter_app.
      fold (content (scan true (negb cb) rest')). rewrite IH2.
      destruct cb; reflexivity.
    + unfold content at 1.
      destruct (prev || startsBacktick rest); rewrite List.filter_app;
        fold (content (scan true cb rest)); rewrite IH1;
        destruct cb; cbn [negb List.filter app];
        unfold isMarker; rewrite ?Hc; reflexivity.
  - rewrite !content_cons, IH1. reflexivity.
Qed.

(** *** Runs of backticks *)

Lemma run_split (t : text) :
  t = repeat backtick (leading t) ++ skipn (leading t) t.
Proof.
  induction t as [|c t IH]; [reflexivity|].
  cbn [leading]. destruct (isBacktick c) eqn:Hc; [|reflexivity].
  cbn [repeat skipn app]. rewrite <- IH.
  rewrite (isBacktick_eq c Hc). reflexivity.
Qed.

Lemma after_run_starts (t : text) :
  startsBacktick (skipn (leading t) t) = false.
Proof.
  induction t as [|c t IH]; [reflexivity|].
  cbn [leading]. destruct (isBacktick c) eqn:Hc; [exact IH | exact Hc].
Qed.

Lemma leading_pos (c : ascii) (t : text) :
  isBacktick c = true -> 1 <= leading (c :: t).
Proof. intros Hc. cbn [leading]. rewrite Hc. lia. Qed.

Lemma short_runs_leading (t : text) :
  short_runs t = true -> leading t < 5.
Proof.
  destruct t as [|c t]; [cbn; lia|].
  cbn [short_runs]. intros H. apply andb_prop in H as [H _].
  apply Nat.ltb_lt. exact H.
Qed.

Lemma short_runs_skipn (k : nat) :
  forall t, short_runs t = true -> short_runs (skipn k t) = true.
Proof.
  induction k as [|k IH]; intros t H; [exact H|].
  destruct t as [|c t]; [exact H|].
  cbn [skipn]. apply IH. cbn [short_runs] in H.
  apply andb_prop in H as [_ H]. exact H.
Qed.

Lemma short_runs_tail (c : ascii) (t : text) :
  short_runs (c :: t) = true -> short_runs t = true.
Proof. intros H. cbn [short_runs] in H. apply andb_prop in H as [_ H]. exact H. Qed.

Lemma scan_plain (c : ascii) (t : text) (prev cb : bool) :
  isBacktick c = false ->
  scan prev cb (c :: t) = c :: scan false cb t.
Proof. intros Hc. cbn [scan]. rewrite Hc. reflexivity. Qed.

Lemma startsBacktick_scan (t : text) (prev cb : bool) :
  startsBacktick t = false -> startsBacktick (scan prev cb t) = false.
Proof.
  destruct t as [|c t]; [reflexivity|]. cbn [startsBacktick]. intros Hc.
  rewrite scan_plain by exact Hc. exact Hc.
Qed.

(** A fresh run of fewer than five backticks, followed by something else. *)
Lemma scan_run (n : nat) (rest : text) (cb : bool) :
  n < 5 ->
  startsBacktick rest = false ->
  scan false cb (repeat backtick n ++ rest) =
  run_out cb n ++ scan false (run_flag cb n) rest.
Proof.
  intros Hn Hrest.
  assert (Hafter : forall p b, scan p b rest = scan false b rest).
  { intros p b. destruct rest as [|c rest']; [reflexivity|].
    cbn [startsBacktick] in Hrest. rewrite !scan_plain by exact Hrest.
    reflexivity. }
  destruct n as [|[|[|[|[|n]]]]]; [| | | | |lia];
    destruct cb; unfold run_out, run_flag;
    cbn [repeat app scan startsBacktick skip1 andb orb negb];
    change (isBacktick backtick) with true; cbn [andb orb negb];
    rewrite ?Hrest; cbn [andb orb negb app];
    rewrite ?(Hafter true); reflexivity.
Qed.

Lemma count_app (a b : text) :
  count_backticks (a ++ b) = count_backticks a + count_backticks b.
Proof. unfold count_backticks. rewrite List.filter_app, length_app. reflexivity. Qed.

Lemma count_repeat (n : nat) : count_backticks (repeat backtick n) = n.
Proof.
  induction n as [|n IH]; [reflexivity|].
  change (repeat backtick (S n)) with ([backtick] ++ repeat backtick n).
  rewrite count_app, IH. reflexivity.
Qed.

Lemma count_run_out (cb : bool) (n : nat) :
  n < 5 -> count_backticks (run_out cb n) <= n.
Proof.
  intros Hn. destruct n as [|[|[|[|[|n]]]]]; [| | | | |lia];
    destruct cb; vm_compute; lia.
Qed.

Lemma count_scan_short (k : nat) :
  forall t, length t <= k -> short_runs t = true ->
  forall cb, count_backticks (scan false cb t) <= count_backticks t.
Proof.
  induction k as [|k IH]; intros t Hlen Hshort cb.
  - destruct t; [cbn; lia | cbn [length] in Hlen; lia].
  - destruct t as [|c t']; [cbn; lia|].
    destruct (isBacktick c) eqn:Hc.
    + pose proof (short_runs_leading _ Hshort) as Hlt.
      pose proof (leading_pos c t' Hc) as Hpos.
      pose proof (after_run_starts (c :: t')) as Hst.
      pose proof (short_runs_skipn (leading (c :: t')) _ Hshort) as Hsh.
      pose proof (length_skipn (leading (c :: t')) (c :: t')) as Hsk.
      pose proof (run_split (c :: t')) as Heq.
      set (n := leading (c :: t')) in *.
      set (rest := skipn n (c :: t')) in *.
      clearbody rest n. rewrite Heq.
      rewrite scan_run by assumption.
      rewrite !count_app, count_repeat.
      pose proof (count_run_out cb n Hlt).
      cbn [length] in Hlen, Hsk.
      assert (count_backticks (scan false (run_flag cb n) rest)
              <= count_backticks rest) by (apply IH; [lia | exact Hsh]).
      lia.
    + rewrite scan_plain by exact Hc.
      change (c :: scan false cb t') with ([c] ++ scan false cb t').
      change (c :: t') with ([c] ++ t').
      rewrite !count_app. cbn [length] in Hlen.
      assert (count_backticks (scan false cb t') <= count_backticks t')
        by (apply IH; [lia | exact (short_runs_tail _ _ Hshort)]).
      lia.
Qed.

(** What a fresh run of fewer than five backticks turns into is either the
    bold marker or again a run of fewer than five backticks, which a second
    scan writes the same way and leaves with the same flag. *)
Lemma run_out_shape (cb : bool) (n : nat) :
  n < 5 ->
  (run_out cb n = [star; star] /\ run_flag cb n = cb) \/
  (exists m, m < 5 /\ run_out cb n = repeat backtick m /\
             run_out cb m = run_out cb n /\ run_flag cb m = run_flag cb n).
Proof.
  intros Hn.
  destruct n as [|[|[|[|[|n]]]]]; [| | | | |lia]; destruct cb.
  - right. exists 0. repeat split; lia.
  - right. exists 0. repeat split; lia.
  - right. exists 1. repeat split; lia.
  - left. split; reflexivity.
  - right. exists 0. repeat split; lia.
  - right. exists 2. repeat split; lia.
  - right. exists 3. repeat split; lia.
  - right. exists 3. repeat split; lia.
  - right. exists 4. repeat split; lia.
  - right. exists 3. repeat split; lia.
Qed.

Lemma star_not_backtick : isBacktick star = false.
Proof. reflexivity. Qed.

Lemma scan_scan_short (k : nat) :
  forall t, length t <= k -> short_runs t = true ->
  forall cb, scan false cb (scan false cb t) = scan false cb t.
Proof.
  induction k as [|k IH]; intros t Hlen Hshort cb.
  - destruct t; [reflexivity | cbn [length] in Hlen; lia].
  - destruct t as [|c t']; [reflexivity|].
    destruct (isBacktick c) eqn:Hc.
    + pose proof (short_runs_leading _ Hshort) as Hlt.
      pose proof (leading_pos c t' Hc) as Hpos.
      pose proof (after_run_starts (c :: t')) as Hst.
      pose proof (short_runs_skipn (leading (c :: t')) _ Hshort) as Hsh.
      pose proof (length_skipn (leading (c :: t')) (c :: t')) as Hsk.
      pose proof (run_split (c :: t')) as Heq.
      set (n := leading (c :: t')) in *.
      set (rest := skipn n (c :: t')) in *.
      clearbody rest n. rewrite Heq. cbn [length] in Hlen, Hsk.
      rewrite scan_run by assumption.
      assert (Hrest : forall b, scan false b (scan false b rest)
                                = scan false b rest)
        by (intros b; apply IH; [lia | exact Hsh]).
      destruct (run_out_shape cb n Hlt) as [[Hout Hflag] | (m & Hm & Hout & Hoo & Hff)].
      * rewrite Hout, Hflag. cbn [app].
        rewrite !scan_plain by exact star_not_backtick.
        rewrite Hrest. reflexivity.
      * rewrite Hout at 1.
        rewrite scan_run; [| exact Hm | apply startsBacktick_scan; exact Hst].
        rewrite Hoo, Hff, Hrest. reflexivity.
    + rewrite !scan_plain by exact Hc. cbn [length] in Hlen.
      rewrite IH; [reflexivity | lia | exact (short_runs_tail _ _ Hshort)].
Qed.

(** *** The properties of the specification *)

Lemma bytes_replace (input : string) :
  bytes (replaceInlineCodeWithBold input) = scan false false (bytes input).
Proof.
  unfold replaceInlineCodeWithBold, bytes.
  rewrite list_ascii_of_string_of_list_ascii. apply transform_scan.
Qed.

(** The scenarios of the specification that the code meets as written. *)
Example use_go_keyword :
  replaceInlineCodeWithBold "Use `go` keyword" = "Use **go** keyword"%string.
Proof. reflexivity. Qed.

Example backticks_inside_fence_pass_through :
  replaceInlineCodeWithBold "```go `x` ```" = "```go `x` ```"%string.
Proof. reflexivity. Qed.

(** C1, as stated, fails on the code: for the input of three backticks,
    [code], three backticks, the output does not start with a two-backtick
    fence; it is the input itself. *)
Lemma fence_example_keeps_three_backticks :
  replaceInlineCodeWithBold "```code```" = "```code```"%string /\
  replaceInlineCodeWithBold "```code```" <> "``code```"%string.
Proof. split; [reflexivity | discriminate]. Qed.

(** C1, amended: [replaceInlineCodeWithBold] returns the input three
    backticks, [code], three backticks unchanged; and at every iteration that
    takes the fence branch (a backtick with a backtick on both sides) the
    body writes two backticks and sets the flag when the flag was clear,
    writes three backticks and clears the flag when it was set, and moves
    the cursor over the backtick that follows.  (The output is what the
    iterations write, one after the other.) *)
Theorem fence_delimiter_rewrite :
  replaceInlineCodeWithBold "```code```" = "```code```"%string /\
  (forall input : text,
     transform input
     = concat (map (fun v => written (did v)) (trace input))) /\
  forall (input : text) (v : visit),
    In v (trace input) ->
    isFence input (at_index v) = true ->
    did v = if in_fence v
            then Effect [backtick; backtick; backtick] false (at_index v + 1)
            else Effect [backtick; backtick] true (at_index v + 1).
Proof.
  split; [reflexivity|]. split; [exact transform_trace|].
  intros input v Hin Hf. destruct (trace_body input v Hin) as [_ ->].
  apply body_fence. exact Hf.
Qed.

Lemma fence_delimiter_rewrite_witness :
  let input := bytes "```code```" in
  let v := Visit 1 false (Effect [backtick; backtick] true 2) in
  In v (trace input) /\ isFence input 1 = true /\
  did v = Effect [backtick; backtick] true 2.
Proof.
  intros input v.
  assert (Hin : In v (trace input)) by (vm_compute; right; left; reflexivity).
  assert (Hf : isFence input (at_index v) = true) by reflexivity.
  split; [exact Hin|]. split; [exact Hf|].
  exact (proj2 (proj2 fence_delimiter_rewrite) input v Hin Hf).
Defined.

(** C2, as stated, fails on the code: in the input of two backticks the
    first one is a boundary backtick met outside a fence, and the body
    writes it instead of dropping it; the output is the two backticks. *)
Lemma boundary_backtick_not_dropped :
  replaceInlineCodeWithBold "``" = "``"%string /\
  ~ (forall v : visit,
       In v (trace (bytes "``")) ->
       isBoundary (bytes "``") (at_index v) = true ->
       written (did v) = if in_fence v then [backtick] else []).
Proof.
  split; [reflexivity|]. intros H.
  specialize (H (Visit 0 false (Effect [backtick] false 0))).
  assert (Hin : In (Visit 0 false (Effect [backtick] false 0))
                   (trace (bytes "``")))
    by (vm_compute; left; reflexivity).
  specialize (H Hin eq_refl). discriminate H.
Qed.

(** C2, amended: at every iteration that meets a backtick with a backtick
    on exactly one side, the body writes that backtick unchanged when the
    flag says not inside a fence and writes nothing when it says inside a
    fence; the flag and the cursor stay as they are.  (The output is what
    the iterations write, one after the other.) *)
Theorem boundary_backtick_kept_outside_fence :
  (forall input : text,
     transform input
     = concat (map (fun v => written (did v)) (trace input))) /\
  forall (input : text) (v : visit),
    In v (trace input) ->
    isBoundary input (at_index v) = true ->
    did v = Effect (if in_fence v then [] else [backtick])
                   (in_fence v) (at_index v).
Proof.
  split; [exact transform_trace|].
  intros input v Hin Hb. destruct (trace_body input v Hin) as [_ ->].
  apply body_boundary. exact Hb.
Qed.

Lemma boundary_backtick_kept_outside_fence_witness :
  let input := bytes "``a```b``" in
  let v := Visit 7 true (Effect [] true 7) in
  In v (trace input) /\ isBoundary input 7 = true /\
  did v = Effect [] true 7.
Proof.
  intros input v.
  assert (Hin : In v (trace input))
    by (vm_compute; do 6 right; left; reflexivity).
  assert (Hb : isBoundary input (at_index v) = true) by reflexivity.
  split; [exact Hin|]. split; [exact Hb|].
  exact (proj2 boundary_backtick_kept_outside_fence input v Hin Hb).
Defined.

(** C3, as stated, fails on the code: a run of five backticks comes out as
    six (one for the first backtick, two for the fence that sets the flag,
    three for the fence that clears it). *)
Lemma backtick_count_can_grow :
  replaceInlineCodeWithBold "`````" = "``````"%string /\
  ~ count_backticks (bytes (replaceInlineCodeWithBold "`````"))
    <= count_backticks (bytes "`````").
Proof. split; [reflexivity | vm_compute; lia]. Qed.

(** C3, amended: for every input in which fewer than five backticks ever
    stand in a row, the output holds at most as many backticks as the
    input. *)
Theorem backtick_count_short_runs (input : string) :
  short_runs (bytes input) = true ->
  count_backticks (bytes (replaceInlineCodeWithBold input))
  <= count_backticks (bytes input).
Proof.
  intros H. rewrite bytes_replace.
  apply (count_scan_short (length (bytes input))); [lia | exact H].
Qed.

Lemma backtick_count_short_runs_witness :
  short_runs (bytes "a `b` ````c```` ``d``") = true /\
  count_backticks (bytes (replaceInlineCodeWithBold "a `b` ````c```` ``d``"))
  <= count_backticks (bytes "a `b` ````c```` ``d``").
Proof.
  split; [reflexivity|].
  apply (backtick_count_short_runs "a `b` ````c```` ``d``"). reflexivity.
Defined.

(** C4, as stated, fails on the code: the run of five backticks becomes six
    backticks, and six backticks become seven. *)
Lemma transform_not_idempotent :
  replaceInlineCodeWithBold "`````" = "``````"%string /\
  replaceInlineCodeWithBold (replaceInlineCodeWithBold "`````")
  = "```````"%string /\
  replaceInlineCodeWithBold (replaceInlineCodeWithBold "`````")
  <> replaceInlineCodeWithBold "`````".
Proof.
  split; [reflexivity|]. split; [reflexivity|].
  intros H. vm_compute in H. discriminate H.
Qed.

(** C4, amended: for every input in which fewer than five backticks ever
    stand in a row, applying [replaceInlineCodeWithBold] twice equals
    applying it once. *)
Theorem transform_idempotent_short_runs (input : string) :
  short_runs (bytes input) = true ->
  replaceInlineCodeWithBold (replaceInlineCodeWithBold input)
  = replaceInlineCodeWithBold input.
Proof.
  intros H. unfold replaceInlineCodeWithBold at 1.
  fold (bytes (replaceInlineCodeWithBold input)).
  rewrite transform_scan, bytes_replace.
  rewrite (scan_scan_short (length (bytes input))) by (lia || exact H).
  unfold replaceInlineCodeWithBold. fold (bytes input).
  rewrite transform_scan. reflexivity.
Qed.

Lemma transform_idempotent_short_runs_witness :
  short_runs (bytes "a `b` ````c```` ``d``") = true /\
  replaceInlineCodeWithBold (replaceInlineCodeWithBold "a `b` ````c```` ``d``")
  = replaceInlineCodeWithBold "a `b` ````c```` ``d``".
Proof.
  split; [reflexivity|].
  apply (transform_idempotent_short_runs "a `b` ````c```` ``d``"). reflexivity.
Defined.

(** C6: the input backtick, [a], backtick gives [**a**]; and on every input,
    a backtick with no backtick on either side is visited by the loop, and
    the iteration that visits it writes [**] when the flag says not inside a
    fence and the backtick itself when it says inside a fence, leaving the
    flag and the cursor as they are.  (The output is what the iterations
    write, one after the other.) *)
Theorem lone_backtick_becomes_bold :
  replaceInlineCodeWithBold "`a`" = "**a**"%string /\
  (forall input : text,
     transform input
     = concat (map (fun v => written (did v)) (trace input))) /\
  forall (input : text) (i : nat),
    isLone input i = true ->
    (exists v, In v (trace input) /\ at_index v = i) /\
    (forall v, In v (trace input) -> at_index v = i ->
       did v = Effect (if in_fence v then [backtick] else [star; star])
                      (in_fence v) i).
Proof.
  split; [reflexivity|]. split; [exact transform_trace|].
  intros input i Hl. split.
  - pose proof Hl as Hl'. unfold isLone in Hl'.
    apply andb_prop in Hl' as [Hl' _]. apply andb_prop in Hl' as [Hb Hp].
    apply negb_true_iff in Hp. apply trace_reach; [|exact Hp].
    apply nth_error_Some. rewrite (backtickAt_nth _ _ Hb). discriminate.
  - intros v Hin <-. destruct (trace_body input v Hin) as [_ ->].
    apply body_lone. exact Hl.
Qed.

Lemma lone_backtick_becomes_bold_witness :
  let input := bytes "```x`y" in
  isLone input 4 = true /\
  (exists v, In v (trace input) /\ at_index v = 4) /\
  (forall v, In v (trace input) -> at_index v = 4 ->
     did v = Effect (if in_fence v then [backtick] else [star; star])
                    (in_fence v) 4).
Proof.
  intros input. split; [reflexivity|].
  apply (proj2 (proj2 lone_backtick_becomes_bold) input 4). reflexivity.
Defined.

(** C7: an input that holds no backtick is returned unchanged. *)
Theorem no_backtick_identity (input : string) :
  ~ In backtick (bytes input) ->
  replaceInlineCodeWithBold input = input.
Proof.
  intros H. unfold replaceInlineCodeWithBold. fold (bytes input).
  rewrite transform_scan, scan_no_backtick by exact H.
  apply string_of_list_ascii_of_string.
Qed.

Lemma no_backtick_identity_witness :
  ~ In backtick (bytes "**Go** is *fun*") /\
  replaceInlineCodeWithBold "**Go** is *fun*" = "**Go** is *fun*"%string.
Proof.
  assert (H : ~ In backtick (bytes "**Go** is *fun*")).
  { cbn. intros Hin.
    repeat (destruct Hin as [Hin|Hin]; [discriminate Hin|]). exact Hin. }
  split; [exact H|].
  apply (no_backtick_identity "**Go** is *fun*"). exact H.
Defined.

(** C10: the bytes other than backtick and asterisk are the same, in the
    same order, in the input and in the output. *)
Theorem content_preserved (input : string) :
  content (bytes (replaceInlineCodeWithBold input)) = content (bytes input).
Proof. rewrite bytes_replace. apply content_scan. Qed.

End BolderFacts.

(** ** Properties of the PNG walker *)

Section WalkerFacts.
Import Walker.

(** *** Names and paths *)

Lemma chars_append (a b : string) :
  list_ascii_of_string (String.append a b)
  = list_ascii_of_string a ++ list_ascii_of_string b.
Proof.
  induction a as [|c a IH]; [reflexivity|].
  change (String.append (String c a) b) with (String c (String.append a b)).
  cbn [list_ascii_of_string app]. rewrite IH. reflexivity.
Qed.

Lemma chars_substring (n : nat) :
  forall s, list_ascii_of_string (String.substring 0 n s)
            = firstn n (list_ascii_of_string s).
Proof.
  induction n as [|n IH]; intros s; destruct s as [|c s]; cbn;
    try reflexivity.
  rewrite IH. reflexivity.
Qed.

Lemma chars_length (s : string) :
  String.length s = length (list_ascii_of_string s).
Proof. induction s as [|c s IH]; cbn; [reflexivity | rewrite IH; reflexivity]. Qed.

Lemma chars_inj (a b : string) :
  list_ascii_of_string a = list_ascii_of_string b -> a = b.
Proof.
  intros H. rewrite <- (string_of_list_ascii_of_string a),
    <- (string_of_list_ascii_of_string b), H. reflexivity.
Qed.

(** A non-empty extension is a suffix of the name. *)
Lemma ext_from_end_suffix (reversed : list ascii) :
  forall suffix,
    ext_from_end reversed suffix <> [] ->
    exists stem, List.rev reversed ++ suffix
                 = stem ++ ext_from_end reversed suffix.
Proof.
  induction reversed as [|c before IH]; intros suffix Hne; cbn in *.
  - congruence.
  - destruct (Ascii.eqb c separator); [congruence|].
    destruct (Ascii.eqb c dot).
    + exists (List.rev before). rewrite <- app_assoc. reflexivity.
    + destruct (IH (c :: suffix) Hne) as [stem Hstem].
      exists stem. rewrite <- app_assoc. exact Hstem.
Qed.

Lemma nameExt_stem (name ext : string) :
  nameExt name = ext -> ext <> ""%string ->
  exists stem, name = String.append stem ext /\
               jpgName name ext = String.append stem ".jpg".
Proof.
  intros Hext Hne. unfold nameExt in Hext.
  destruct (ext_from_end_suffix (List.rev (list_ascii_of_string name)) [])
    as [stem Hstem].
  { intros Hnil. rewrite Hnil in Hext. cbn in Hext. congruence. }
  rewrite rev_involutive, app_nil_r in Hstem.
  assert (Hchars : list_ascii_of_string ext
                   = ext_from_end (List.rev (list_ascii_of_string name)) []).
  { rewrite <- Hext. apply list_ascii_of_string_of_list_ascii. }
  rewrite <- Hchars in Hstem.
  exists (string_of_list_ascii stem). split.
  - apply chars_inj.
    rewrite chars_append, list_ascii_of_string_of_list_ascii. exact Hstem.
  - unfold jpgName. f_equal. apply chars_inj.
    rewrite chars_substring, list_ascii_of_string_of_list_ascii,
      !chars_length, Hstem, length_app.
    replace (length stem + length (list_ascii_of_string ext)
             - length (list_ascii_of_string ext)) with (length stem) by lia.
    rewrite firstn_app, firstn_all, Nat.sub_diag. cbn. apply app_nil_r.
Qed.

Lemma nameExt_jpg (stem : string) :
  nameExt (String.append stem ".jpg") = ".jpg"%string.
Proof.
  unfold nameExt. rewrite chars_append, rev_app_distr. reflexivity.
Qed.

Lemma Base_Join (dir : path) (name : string) : Base (Join dir name) = name.
Proof. unfold Base, Join. apply last_last. Qed.

Lemma Dir_Join (dir : path) (name : string) : Dir (Join dir name) = dir.
Proof. unfold Dir, Join. apply removelast_last. Qed.

(** The path written never is the path read. *)
Lemma output_path_differs (root p : path) (baseName : string) :
  Ext p = ".png"%string ->
  Join root (jpgName baseName ".png") <> p.
Proof.
  intros Hext Heq. rewrite <- Heq in Hext. unfold Ext in Hext.
  rewrite Base_Join in Hext. unfold jpgName in Hext.
  rewrite nameExt_jpg in Hext. discriminate Hext.
Qed.

(** *** The function literal, case by case *)


Lemma walkFn_other (os : platform) (root p : path) (w : world) :
  Ext p <> ".png"%string -> walkFn os root p file w = (None, w).
Proof.
  intros H. unfold walkFn, file. cbn [IsDir].
  destruct (String.eqb_spec (Ext p) ".png"); [contradiction | reflexivity].
Qed.





Lemma walkFn_succeeds (os : platform) (root p : path) (w w1 w2 : world)
    (b j : data) :
  Ext p = ".png"%string -> ReadFile os p w = inl b ->
  ToJpeg os b = inl j ->
  WriteFile os (Join root (jpgName (Base p) ".png")) j w = (None, w1) ->
  RemoveAll os p w1 = (None, w2) ->
  walkFn os root p file w
  = (None, say (Successful (Join root (jpgName (Base p) ".png"))) w2).
Proof.
  intros He Hr Hc Hw Hd. unfold walkFn, file. cbn [IsDir].
  rewrite He, Hr, Hc. cbn [String.eqb Ascii.eqb Bool.eqb]. rewrite Hw, Hd.
  reflexivity.
Qed.

(** *** The walk *)

Lemma entry_induction (P : entry -> Prop) :
  P Regular -> P Unstatable -> P (Directory None) ->
  (forall names, Forall (fun ne => P (snd ne)) names ->
                 P (Directory (Some names))) ->
  forall e, P e.
Proof.
  intros Hreg Hun Hnone Hdir.
  refine (fix rec (e : entry) : P e :=
            match e with
            | Regular => Hreg
            | Unstatable => Hun
            | Directory None => Hnone
            | Directory (Some names) =>
              Hdir names
                ((fix each (l : list (string * entry))
                    : Forall (fun ne => P (snd ne)) l :=
                    match l with
                    | [] => @List.Forall_nil _ _
                    | ne :: l' =>
                      @List.Forall_cons _ _ ne l' (rec (snd ne)) (each l')
                    end) names)
            end).
Qed.

Lemma walk_directory (os : platform) (root p : path)
    (names : list (string * entry)) (w : world) :
  walk os root p (Directory (Some names)) w = walkNames os root p names w.
Proof.
  cbn [walk walkFn IsDir]. revert w.
  induction names as [|[name child] names IH]; intros w; [reflexivity|].
  cbn [walkNames].
  destruct (walk os root (Join p name) child w) as [[err|] w'];
    [reflexivity | apply IH].
Qed.






(** *** The properties of the specification *)

(** C5, as stated, fails on the code: for the PNG file [sub/a.png] below the
    root, [main] writes the JPEG bytes to [a.jpg] in the root directory and
    nothing to [sub/a.jpg], the sibling path. *)
Lemma nested_png_not_written_beside_it :
  Ext nested_png = ".png"%string /\
  files (snd (main plain nested_tree nested_world))
    !! Join (Dir nested_png) "a.jpg" = None /\
  files (snd (main plain nested_tree nested_world))
    !! Join directoryPath "a.jpg" = Some ["P"; "N"; "G"]%char.
Proof. split; [reflexivity|]. split; vm_compute; reflexivity. Qed.

(** C5, amended: for every regular file whose extension is exactly [.png]
    and for which reading, converting and writing succeed, the literal
    writes the JPEG bytes to the path made of the root directory and the
    file's base name with [.jpg] in place of [.png]; that path is a sibling
    of the file exactly when the file lies directly in the root
    directory. *)
Theorem jpeg_written_into_root_directory (os : platform) (root p : path)
    (w : world) (imageBytes jpegBytes : data) :
  Ext p = ".png"%string ->
  ReadFile os p w = inl imageBytes ->
  ToJpeg os imageBytes = inl jpegBytes ->
  write_outcome os (Join root (jpgName (Base p) ".png")) = Written ->
  exists stem,
    Base p = String.append stem ".png" /\
    files (snd (walkFn os root p file w)) !! Join root (String.append stem ".jpg")
    = Some jpegBytes /\
    (Join root (String.append stem ".jpg")
     = Join (Dir p) (String.append stem ".jpg") <-> Dir p = root).
Proof.
  intros He Hr Hc Hw.
  destruct (nameExt_stem (Base p) ".png" He) as (stem & Hbase & Hjpg);
    [discriminate|].
  exists stem. split; [exact Hbase|].
  pose proof (output_path_differs root p (Base p) He) as Hne.
  rewrite Hjpg in Hw, Hne. split.
  - unfold walkFn, file. cbn [IsDir].
    rewrite He, Hr, Hc. cbn [String.eqb Ascii.eqb Bool.eqb].
    rewrite Hjpg. unfold WriteFile. rewrite Hw. unfold RemoveAll.
    destruct (remove_denied os p); cbn [snd say files].
    + apply lookup_insert_eq.
    + rewrite lookup_delete_ne by congruence. apply lookup_insert_eq.
  - unfold Join. split.
    + intros H. apply app_inj_tail in H as [H _]. congruence.
    + intros ->. reflexivity.
Qed.

Lemma jpeg_written_into_root_directory_witness :
  Ext top_png = ".png"%string /\
  ReadFile plain top_png top_world = inl ["P"; "N"; "G"]%char /\
  ToJpeg plain ["P"; "N"; "G"]%char = inl ["P"; "N"; "G"]%char /\
  exists stem,
    Base top_png = String.append stem ".png" /\
    files (snd (walkFn plain directoryPath top_png file top_world))
      !! Join directoryPath (String.append stem ".jpg")
    = Some ["P"; "N"; "G"]%char /\
    (Join directoryPath (String.append stem ".jpg")
     = Join (Dir top_png) (String.append stem ".jpg")
     <-> Dir top_png = directoryPath).
Proof.
  assert (He : Ext top_png = ".png"%string) by reflexivity.
  assert (Hr : ReadFile plain top_png top_world = inl ["P"; "N"; "G"]%char)
    by (vm_compute; reflexivity).
  assert (Hc : ToJpeg plain ["P"; "N"; "G"]%char = inl ["P"; "N"; "G"]%char)
    by reflexivity.
  split; [exact He|]. split; [exact Hr|]. split; [exact Hc|].
  exact (jpeg_written_into_root_directory plain directoryPath top_png
           top_world _ _ He Hr Hc eq_refl).
Defined.

(** C9: when the literal has run on an existing [.png] file, the file is
    gone only if it was read and converted and the JPEG bytes were written
    in full, and they are then at the output path; if reading, converting or
    writing fails, the file is still there with its content. *)
Theorem png_removed_only_after_jpeg_written (os : platform) (root p : path)
    (w : world) (d : data) :
  Ext p = ".png"%string ->
  files w !! p = Some d ->
  (files (snd (walkFn os root p file w)) !! p = None ->
   exists jpegBytes,
     ReadFile os p w = inl d /\ ToJpeg os d = inl jpegBytes /\
     WriteFile os (Join root (jpgName (Base p) ".png")) jpegBytes w
     = (None, World (<[Join root (jpgName (Base p) ".png") := jpegBytes]>
                       (files w)) (lines w)) /\
     files (snd (walkFn os root p file w))
       !! Join root (jpgName (Base p) ".png") = Some jpegBytes) /\
  ((exists err, ReadFile os p w = inr err) \/
   (exists err, ToJpeg os d = inr err) \/
   (exists jpegBytes err w1,
      ToJpeg os d = inl jpegBytes /\
      WriteFile os (Join root (jpgName (Base p) ".png")) jpegBytes w
      = (Some err, w1)) ->
   files (snd (walkFn os root p file w)) !! p = Some d).
Proof.
  intros He Hd.
  pose proof (output_path_differs root p (Base p) He) as Hne.
  unfold walkFn, file, ReadFile, WriteFile, RemoveAll. cbn [IsDir].
  rewrite He, Hd. cbn [String.eqb Ascii.eqb Bool.eqb].
  set (out := Join root (jpgName (Base p) ".png")) in *.
  destruct (read_denied os p); cbn [snd say files].
  { split; [congruence|]. intros _. exact Hd. }
  destruct (ToJpeg os d) as [j|errc]; cbn [snd say files].
  2:{ split; [congruence|]. intros _. exact Hd. }
  destruct (write_outcome os out); cbn [snd say files].
  - destruct (remove_denied os p); cbn [snd say files].
    + split.
      * rewrite lookup_insert_ne by exact Hne. congruence.
      * intros _. rewrite lookup_insert_ne by exact Hne. exact Hd.
    + split.
      * intros _. exists j. repeat split.
        rewrite lookup_delete_ne by congruence. apply lookup_insert_eq.
      * intros [[err H]|[[err H]|(j' & err & w1 & _ & H)]]; discriminate H.
  - split; [congruence|]. intros _. exact Hd.
  - split.
    + rewrite lookup_insert_ne by exact Hne. congruence.
    + intros _. rewrite lookup_insert_ne by exact Hne. exact Hd.
Qed.

Lemma png_removed_only_after_jpeg_written_witness :
  Ext top_png = ".png"%string /\
  files top_world !! top_png = Some ["P"; "N"; "G"]%char /\
  files (snd (walkFn plain directoryPath top_png file top_world)) !! top_png
  = None /\
  files (snd (walkFn locked directoryPath top_png file top_world)) !! top_png
  = Some ["P"; "N"; "G"]%char.
Proof.
  assert (He : Ext top_png = ".png"%string) by reflexivity.
  assert (Hd : files top_world !! top_png = Some ["P"; "N"; "G"]%char)
    by (vm_compute; reflexivity).
  split; [exact He|]. split; [exact Hd|]. split.
  - vm_compute. reflexivity.
  - apply (proj2 (png_removed_only_after_jpeg_written locked directoryPath
                    top_png top_world _ He Hd)).
    left. exists (ErrRead top_png). vm_compute. reflexivity.
Defined.



(** On the tree with the unlistable directory, [a.png] is handled (its read
    is denied and logged), the walk stops at [private], [z.png] is never
    visited, and the error is fatal. *)
Example private_tree_run :
  run locked directoryPath private_tree top_world
  = (1, World (files top_world)
          [FailedRead (ErrRead top_png);
           Fatal (ErrReadDir (Join directoryPath "private"))]).
Proof. vm_compute. reflexivity. Qed.

End WalkerFacts.

(** ** Further properties of the marker rewriter *)

Section BolderMore.
Import Bolder.

Lemma startsBacktick_app (a b : text) :
  startsBacktick b = false ->
  startsBacktick (a ++ b) = startsBacktick a.
Proof. intros Hb. destruct a; [exact Hb | reflexivity]. Qed.

Lemma no_backtick_starts (a : text) :
  ~ In backtick a -> startsBacktick a = false.
Proof.
  destruct a as [|c a]; [reflexivity|]. intros H. cbn.
  destruct (isBacktick c) eqn:Hc; [|reflexivity].
  exfalso. apply H. left. apply isBacktick_eq. exact Hc.
Qed.

Lemma no_backtick_head (c : ascii) (a : text) :
  ~ In backtick (c :: a) -> isBacktick c = false /\ ~ In backtick a.
Proof.
  intros H. split.
  - exact (no_backtick_starts (c :: a) H).
  - intros Hin. apply H. right. exact Hin.
Qed.

Lemma scan_prev_irrelevant (t : text) (p q cb : bool) :
  startsBacktick t = false -> scan p cb t = scan q cb t.
Proof.
  destruct t as [|c t]; [reflexivity|]. cbn [startsBacktick]. intros Hc.
  rewrite !scan_plain by exact Hc. reflexivity.
Qed.

(** Backtick-free text in front is copied and the scan starts afresh. *)
Lemma scan_plain_prefix (a : text) :
  ~ In backtick a ->
  forall b cb, scan false cb (a ++ b) = a ++ scan false cb b.
Proof.
  induction a as [|c a IH]; intros Ha b cb; [reflexivity|].
  destruct (no_backtick_head c a Ha) as [Hc Ha'].
  cbn [app]. rewrite scan_plain by exact Hc. rewrite IH by exact Ha'.
  reflexivity.
Qed.

Lemma scan_plain_prefix_any (a : text) (prev : bool) :
  a <> [] -> ~ In backtick a ->
  forall b cb, scan prev cb (a ++ b) = a ++ scan false cb b.
Proof.
  intros Hne Ha b cb. destruct a as [|c a]; [congruence|].
  destruct (no_backtick_head c a Ha) as [Hc Ha'].
  cbn [app]. rewrite scan_plain by exact Hc.
  rewrite scan_plain_prefix by exact Ha'. reflexivity.
Qed.

(** Backtick-free text behind is copied, whatever the flag. *)
Lemma scan_plain_suffix (a : text) :
  ~ In backtick a ->
  forall (b : text) prev cb, scan prev cb (b ++ a) = scan prev cb b ++ a.
Proof.
  intros Ha b.
  induction b as [|c rest IH1 IH2] using text_ind2; intros prev cb.
  - cbn [app scan]. apply scan_no_backtick. exact Ha.
  - cbn [app scan].
    rewrite (startsBacktick_app rest a (no_backtick_starts a Ha)).
    destruct (isBacktick c) eqn:Hc.
    + destruct (prev && startsBacktick rest) eqn:Hf.
      * apply andb_prop in Hf as [_ Hn].
        destruct rest as [|d rest']; [discriminate Hn|].
        cbn [app skip1] in *. rewrite IH2, app_assoc. reflexivity.
      * destruct (prev || startsBacktick rest);
          rewrite IH1, app_assoc; reflexivity.
    + rewrite IH1. reflexivity.
Qed.

Lemma startsBacktick_app_l (a b : text) :
  a <> [] -> startsBacktick (a ++ b) = startsBacktick a.
Proof. intros Ha. destruct a; [congruence | reflexivity]. Qed.

(** A backtick-free word between two single backticks. *)
Lemma scan_span (w rest : text) (cb : bool) :
  w <> [] -> ~ In backtick w -> startsBacktick rest = false ->
  scan false cb (backtick :: w ++ backtick :: rest) =
  (if cb then backtick :: w ++ [backtick]
   else star :: star :: w ++ [star; star]) ++ scan false cb rest.
Proof.
  intros Hne Hw Hrest.
  assert (Hclose : scan false cb (backtick :: rest)
                   = (if cb then [backtick] else [star; star])
                     ++ scan false cb rest).
  { cbn [scan]. change (isBacktick backtick) with true. rewrite Hrest.
    cbn [andb orb]. rewrite (scan_prev_irrelevant rest true false cb Hrest).
    destruct cb; reflexivity. }
  cbn [scan]. change (isBacktick backtick) with true.
  rewrite (startsBacktick_app_l w (backtick :: rest) Hne).
  rewrite (no_backtick_starts w Hw). cbn [andb orb].
  rewrite (scan_plain_prefix_any w true Hne Hw), Hclose.
  destruct cb; cbn [negb app]; rewrite <- ?app_assoc; reflexivity.
Qed.

Lemma endsBacktick_cons (c d : ascii) (t : text) :
  endsBacktick (c :: d :: t) = endsBacktick (d :: t).
Proof.
  unfold endsBacktick. cbn [List.rev]. rewrite <- app_assoc.
  destruct (List.rev t); reflexivity.
Qed.

(** Inside a fence, text whose backticks all stand alone is copied as it
    is. *)
Lemma scan_fenced_verbatim (body : text) :
  lone_only body = true ->
  forall prev tail,
    body <> [] ->
    prev && startsBacktick body = false ->
    endsBacktick body && startsBacktick tail = false ->
    scan prev true (body ++ tail) = body ++ scan (endsBacktick body) true tail.
Proof.
  induction body as [|c body IH]; intros Hl prev tail Hne Hp He;
    [congruence|].
  cbn [lone_only] in Hl. apply andb_prop in Hl as [Hadj Hl].
  apply negb_true_iff in Hadj.
  destruct body as [|d body'].
  - cbn [app scan]. unfold endsBacktick in *. cbn [List.rev app startsBacktick] in *.
    destruct (isBacktick c) eqn:Hc; [|reflexivity].
    cbn [andb] in He. rewrite andb_true_r in Hp. rewrite Hp, He.
    reflexivity.
  - rewrite endsBacktick_cons in *.
    change ((c :: d :: body') ++ tail) with (c :: (d :: body') ++ tail).
    cbn [scan]. change (startsBacktick ((d :: body') ++ tail))
      with (isBacktick d).
    cbn [startsBacktick] in *.
    destruct (isBacktick c) eqn:Hc.
    + cbn [andb] in Hadj. rewrite andb_true_r in Hp. rewrite Hp, Hadj.
      cbn [andb orb negb app]. f_equal.
      apply IH; [exact Hl | discriminate | | exact He].
      cbn [startsBacktick andb]. exact Hadj.
    + change ((c :: d :: body') ++ scan (endsBacktick (d :: body')) true tail)
        with (c :: (d :: body') ++ scan (endsBacktick (d :: body')) true tail).
      f_equal. apply IH; [exact Hl | discriminate | reflexivity | exact He].
Qed.

(** Outside a fence, text whose backticks all stand alone has each of them
    turned into the bold marker. *)
Lemma scan_lone_only (t : text) :
  lone_only t = true ->
  forall prev, prev && startsBacktick t = false ->
  scan prev false t = embolden t.
Proof.
  induction t as [|c t IH]; intros Hl prev Hp; [reflexivity|].
  cbn [lone_only] in Hl. apply andb_prop in Hl as [Hadj Hl].
  apply negb_true_iff in Hadj.
  cbn [scan embolden flat_map startsBacktick] in *.
  destruct (isBacktick c) eqn:Hc.
  - cbn [andb] in Hadj. rewrite andb_true_r in Hp. rewrite Hp, Hadj.
    cbn [andb orb negb]. f_equal. apply IH; [exact Hl|].
    cbn [andb]. exact Hadj.
  - cbn [app]. f_equal. apply IH; [exact Hl | reflexivity].
Qed.

Lemma length_scan_bound (t : text) :
  forall prev cb, length (scan prev cb t) <= 2 * length t.
Proof.
  induction t as [|c rest IH1 IH2] using text_ind2; intros prev cb;
    [cbn; lia|].
  cbn [scan]. destruct (isBacktick c).
  - destruct (prev && startsBacktick rest) eqn:Hf.
    + apply andb_prop in Hf as [_ Hn].
      destruct rest as [|d rest']; [discriminate Hn|].
      cbn [skip1] in *. specialize (IH2 true (negb cb)).
      rewrite length_app. destruct cb; cbn [length]; lia.
    + specialize (IH1 true cb).
      destruct (prev || startsBacktick rest); rewrite length_app;
        destruct cb; cbn [length negb]; lia.
  - specialize (IH1 false cb). cbn [length]. lia.
Qed.

Lemma count_cons_backtick (c : ascii) (t : text) :
  isBacktick c = true -> count_backticks (c :: t) = S (count_backticks t).
Proof. intros Hc. unfold count_backticks. cbn. rewrite Hc. reflexivity. Qed.

Lemma count_cons_plain (c : ascii) (t : text) :
  isBacktick c = false -> count_backticks (c :: t) = count_backticks t.
Proof. intros Hc. unfold count_backticks. cbn. rewrite Hc. reflexivity. Qed.

Lemma count_scan_bound (t : text) :
  forall prev cb,
    2 * count_backticks (scan prev cb t) <= 3 * count_backticks t.
Proof.
  induction t as [|c rest IH1 IH2] using text_ind2; intros prev cb;
    [cbn; lia|].
  cbn [scan]. destruct (isBacktick c) eqn:Hc.
  - rewrite (count_cons_backtick c rest Hc).
    destruct (prev && startsBacktick rest) eqn:Hf.
    + apply andb_prop in Hf as [_ Hn].
      destruct rest as [|d rest']; [discriminate Hn|].
      cbn [skip1 startsBacktick] in *. specialize (IH2 true (negb cb)).
      rewrite (count_cons_backtick d rest' Hn), count_app.
      destruct cb; cbn [negb] in *;
        [change (count_backticks [backtick; backtick; backtick]) with 3
        |change (count_backticks [backtick; backtick]) with 2]; lia.
    + specialize (IH1 true cb). rewrite (isBacktick_eq c Hc).
      destruct (prev || startsBacktick rest); rewrite count_app;
        destruct cb; cbn [negb];
        try change (count_backticks [backtick]) with 1;
        try change (count_backticks [star; star]) with 0;
        try change (count_backticks []) with 0; lia.
  - rewrite !(count_cons_plain c) by exact Hc. apply IH1.
Qed.

Lemma visits_from (fuel : nat) :
  forall (input : text) (i : nat) (cb : bool) (v : visit),
    In v (visits fuel input i cb) -> i <= at_index v.
Proof.
  induction fuel as [|fuel IH]; intros input i cb v Hin; cbn [visits] in Hin.
  - destruct Hin.
  - destruct (i <? length input); [|destruct Hin].
    destruct Hin as [<-|Hin]; [cbn; lia|].
    apply IH in Hin.
    assert (i <= cursor (body input i cb)); [|lia].
    unfold body. destruct (nth_error input i) as [c|]; [|cbn; lia].
    destruct (isBacktick c); [|cbn; lia].
    destruct (prevBacktick input i && nextBacktick input i);
      [destruct cb; cbn; lia|].
    destruct (prevBacktick input i || nextBacktick input i);
      destruct cb; cbn; lia.
Qed.

Lemma visits_sorted (fuel : nat) :
  forall (input : text) (i : nat) (cb : bool),
    StronglySorted (fun a b => at_index a < at_index b)
      (visits fuel input i cb).
Proof.
  induction fuel as [|fuel IH]; intros input i cb; cbn [visits].
  - constructor.
  - destruct (i <? length input); [|constructor].
    constructor; [apply IH|].
    apply List.Forall_forall. intros v Hin. apply visits_from in Hin.
    cbn [at_index].
    assert (i <= cursor (body input i cb)); [|lia].
    unfold body. destruct (nth_error input i) as [c|]; [|cbn; lia].
    destruct (isBacktick c); [|cbn; lia].
    destruct (prevBacktick input i && nextBacktick input i);
      [destruct cb; cbn; lia|].
    destruct (prevBacktick input i || nextBacktick input i);
      destruct cb; cbn; lia.
Qed.

(** A fenced block: opening fence, content, closing fence. *)
Lemma scan_fenced_block (body rest : text) :
  body <> [] -> lone_only body = true ->
  startsBacktick body = false -> endsBacktick body = false ->
  startsBacktick rest = false ->
  scan false false (fence ++ body ++ fence ++ rest)
  = fence ++ body ++ fence ++ scan false false rest.
Proof.
  intros Hne Hl Hs He Hrest. unfold fence. cbn [app scan startsBacktick skip1].
  change (isBacktick backtick) with true. cbn [andb orb negb app].
  do 3 f_equal.
  rewrite (scan_fenced_verbatim body Hl true _ Hne);
    [| rewrite Hs; reflexivity | rewrite He; reflexivity].
  rewrite He. f_equal. cbn [scan startsBacktick skip1].
  change (isBacktick backtick) with true. cbn [andb orb negb app].
  do 3 f_equal. apply scan_prev_irrelevant. exact Hrest.
Qed.

Lemma count_embolden (t : text) : count_backticks (embolden t) = 0.
Proof.
  induction t as [|c t IH]; [reflexivity|].
  cbn [embolden flat_map]. rewrite count_app. fold (embolden t). rewrite IH.
  destruct (isBacktick c) eqn:Hc; [reflexivity|].
  rewrite (count_cons_plain c [] Hc). reflexivity.
Qed.

Lemma string_of_app (a b : text) :
  string_of_list_ascii (a ++ b)
  = String.append (string_of_list_ascii a) (string_of_list_ascii b).
Proof.
  apply chars_inj.
  rewrite chars_append, !list_ascii_of_string_of_list_ascii. reflexivity.
Qed.

Lemma bytes_append (a b : string) :
  bytes (String.append a b) = bytes a ++ bytes b.
Proof. apply chars_append. Qed.

Lemma bytes_inj (a b : string) : bytes a = bytes b -> a = b.
Proof. apply chars_inj. Qed.

(** *** Further properties *)

(** X1: backtick-free text in front of and behind any text is copied as it
    is, and the text in between is rewritten as if it stood alone. *)
Theorem plain_text_around_is_copied (a b c : string) :
  ~ In backtick (bytes a) ->
  ~ In backtick (bytes c) ->
  replaceInlineCodeWithBold (a +:+ b +:+ c)
  = a +:+ replaceInlineCodeWithBold b +:+ c.
Proof.
  intros Ha Hc. apply bytes_inj.
  rewrite bytes_replace, !bytes_append, bytes_replace.
  rewrite scan_plain_prefix by exact Ha.
  rewrite scan_plain_suffix by exact Hc. reflexivity.
Qed.

Lemma plain_text_around_is_copied_witness :
  replaceInlineCodeWithBold ("Use the " +:+ "`go`" +:+ " keyword")
  = "Use the " +:+ replaceInlineCodeWithBold "`go`" +:+ " keyword".
Proof.
  apply (plain_text_around_is_copied "Use the " "`go`" " keyword");
    cbn; intros H;
    repeat (destruct H as [H|H]; [discriminate H|]); exact H.
Defined.

(** X2: after backtick-free text, a non-empty backtick-free word between
    two single backticks, followed by something that does not start with a
    backtick, comes out between two bold markers, and the rest is rewritten
    as if it stood alone. *)
Theorem inline_span_becomes_bold (pre w rest : string) :
  ~ In backtick (bytes pre) ->
  w <> ""%string ->
  ~ In backtick (bytes w) ->
  startsBacktick (bytes rest) = false ->
  replaceInlineCodeWithBold (pre +:+ "`" +:+ w +:+ "`" +:+ rest)
  = pre +:+ "**" +:+ w +:+ "**" +:+ replaceInlineCodeWithBold rest.
Proof.
  intros Hpre Hne Hw Hrest. apply bytes_inj.
  rewrite bytes_replace, !bytes_append, bytes_replace.
  change (bytes "`") with [backtick]. change (bytes "**") with [star; star].
  rewrite scan_plain_prefix by exact Hpre. cbn [app].
  rewrite scan_span; [| | exact Hw | exact Hrest].
  - cbn [app]. rewrite <- app_assoc. reflexivity.
  - intros Hnil. apply Hne. apply bytes_inj. exact Hnil.
Qed.

Lemma inline_span_becomes_bold_witness :
  replaceInlineCodeWithBold ("The " +:+ "`" +:+ "main" +:+ "`" +:+ " function")
  = "The " +:+ "**" +:+ "main" +:+ "**"
    +:+ replaceInlineCodeWithBold " function".
Proof.
  apply (inline_span_becomes_bold "The " "main" " function");
    try discriminate; try reflexivity;
    cbn; intros H;
    repeat (destruct H as [H|H]; [discriminate H|]); exact H.
Defined.

(** X3: after backtick-free text, a fenced block (three backticks, a
    non-empty content that neither starts nor ends with a backtick and in
    which no two backticks are adjacent, three backticks) followed by
    something that does not start with a backtick is copied as it is, fences
    and single backticks of the content included, and the rest is rewritten
    as if it stood alone. *)
Theorem fenced_block_is_copied (pre body rest : string) :
  ~ In backtick (bytes pre) ->
  body <> ""%string ->
  lone_only (bytes body) = true ->
  startsBacktick (bytes body) = false ->
  endsBacktick (bytes body) = false ->
  startsBacktick (bytes rest) = false ->
  replaceInlineCodeWithBold (pre +:+ "```" +:+ body +:+ "```" +:+ rest)
  = pre +:+ "```" +:+ body +:+ "```" +:+ replaceInlineCodeWithBold rest.
Proof.
  intros Hpre Hne Hl Hs He Hrest. apply bytes_inj.
  rewrite bytes_replace, !bytes_append, bytes_replace.
  change (bytes "```") with fence.
  rewrite scan_plain_prefix by exact Hpre.
  rewrite scan_fenced_block; try assumption; [reflexivity|].
  intros Hnil. apply Hne. apply bytes_inj. exact Hnil.
Qed.

Lemma fenced_block_is_copied_witness :
  replaceInlineCodeWithBold
    ("Run: " +:+ "```" +:+ "go `x` := 1;" +:+ "```" +:+ " and `y`")
  = "Run: " +:+ "```" +:+ "go `x` := 1;" +:+ "```"
    +:+ replaceInlineCodeWithBold " and `y`".
Proof.
  apply (fenced_block_is_copied "Run: " "go `x` := 1;" " and `y`");
    try discriminate; try reflexivity.
  cbn; intros H;
    repeat (destruct H as [H|H]; [discriminate H|]); exact H.
Defined.

(** X4: when no two backticks of the input are adjacent, the output is the
    input with every backtick replaced by the bold marker, so it holds no
    backtick at all. *)
Theorem lone_backticks_all_become_bold (input : string) :
  lone_only (bytes input) = true ->
  bytes (replaceInlineCodeWithBold input) = embolden (bytes input) /\
  count_backticks (bytes (replaceInlineCodeWithBold input)) = 0.
Proof.
  intros Hl. rewrite bytes_replace.
  rewrite (scan_lone_only _ Hl false eq_refl).
  split; [reflexivity | apply count_embolden].
Qed.

Lemma lone_backticks_all_become_bold_witness :
  lone_only (bytes "a `b` and `c`, `d`") = true /\
  bytes (replaceInlineCodeWithBold "a `b` and `c`, `d`")
  = embolden (bytes "a `b` and `c`, `d`") /\
  count_backticks (bytes (replaceInlineCodeWithBold "a `b` and `c`, `d`")) = 0.
Proof.
  split; [reflexivity|].
  apply (lone_backticks_all_become_bold "a `b` and `c`, `d`"). reflexivity.
Defined.

(** X5: the output is at most twice as long as the input. *)
Theorem output_length_bound (input : string) :
  String.length (replaceInlineCodeWithBold input) <= 2 * String.length input.
Proof.
  rewrite !chars_length. fold (bytes (replaceInlineCodeWithBold input)).
  fold (bytes input). rewrite bytes_replace. apply length_scan_bound.
Qed.

(** X6: on every input, twice the number of backticks of the output is at
    most three times the number of backticks of the input. *)
Theorem backtick_count_bound (input : string) :
  2 * count_backticks (bytes (replaceInlineCodeWithBold input))
  <= 3 * count_backticks (bytes input).
Proof. rewrite bytes_replace. apply count_scan_bound. Qed.

(** X7: the loop is a single pass: the cursors of its iterations strictly
    increase, so no byte of the input is visited twice, and every cursor is
    inside the input. *)
Theorem loop_is_single_pass (input : text) :
  StronglySorted (fun a b => at_index a < at_index b) (trace input) /\
  Forall (fun v => at_index v < length input) (trace input).
Proof.
  split; [apply visits_sorted|].
  apply List.Forall_forall. intros v Hin.
  exact (proj1 (trace_body input v Hin)).
Qed.

(** A backtick-free word between two pairs of backticks. *)
Lemma scan_double_span (w rest : text) (cb : bool) :
  w <> [] -> ~ In backtick w -> startsBacktick rest = false ->
  scan false cb (backtick :: backtick :: w ++ backtick :: backtick :: rest) =
  (if cb then w
   else backtick :: backtick :: w ++ [backtick; backtick])
  ++ scan false cb rest.
Proof.
  intros Hne Hw Hrest.
  assert (Hclose : scan false cb (backtick :: backtick :: rest)
                   = (if cb then [] else [backtick; backtick])
                     ++ scan false cb rest).
  { cbn [scan startsBacktick]. change (isBacktick backtick) with true.
    rewrite Hrest. cbn [andb orb].
    rewrite (scan_prev_irrelevant rest true false cb Hrest).
    destruct cb; reflexivity. }
  cbn [scan startsBacktick]. change (isBacktick backtick) with true.
  rewrite (startsBacktick_app_l w (backtick :: backtick :: rest) Hne).
  rewrite (no_backtick_starts w Hw). cbn [andb orb].
  rewrite (scan_plain_prefix_any w true Hne Hw), Hclose.
  destruct cb; cbn [negb app]; rewrite <- ?app_assoc; reflexivity.
Qed.

(** X15: after backtick-free text and outside a fence, a non-empty
    backtick-free word between two pairs of backticks, followed by something
    that does not start with a backtick, is copied with its four backticks,
    and the rest is rewritten as if it stood alone. *)
Theorem double_backtick_span_is_kept (pre w rest : string) :
  ~ In backtick (bytes pre) ->
  w <> ""%string ->
  ~ In backtick (bytes w) ->
  startsBacktick (bytes rest) = false ->
  replaceInlineCodeWithBold (pre +:+ "``" +:+ w +:+ "``" +:+ rest)
  = pre +:+ "``" +:+ w +:+ "``" +:+ replaceInlineCodeWithBold rest.
Proof.
  intros Hpre Hne Hw Hrest. apply bytes_inj.
  rewrite bytes_replace, !bytes_append, bytes_replace.
  change (bytes "``") with [backtick; backtick].
  rewrite scan_plain_prefix by exact Hpre. cbn [app].
  rewrite scan_double_span; [| | exact Hw | exact Hrest].
  - cbn [app]. rewrite <- app_assoc. reflexivity.
  - intros Hnil. apply Hne. apply bytes_inj. exact Hnil.
Qed.

Lemma double_backtick_span_is_kept_witness :
  replaceInlineCodeWithBold ("See " +:+ "``" +:+ "a b" +:+ "``" +:+ ".")
  = "See " +:+ "``" +:+ "a b" +:+ "``" +:+ replaceInlineCodeWithBold ".".
Proof.
  apply (double_backtick_span_is_kept "See " "a b" ".");
    try discriminate; try reflexivity;
    cbn; intros H;
    repeat (destruct H as [H|H]; [discriminate H|]); exact H.
Defined.

End BolderMore.

(** ** Further properties of the PNG walker *)

Section WalkerMore.
Import Walker.

(** Whatever relates a world to itself, composes, and holds across one call
    of the literal, holds across the whole walk. *)
Lemma walk_preserves (os : platform) (root : path)
    (R : world -> world -> Prop) :
  (forall w, R w w) ->
  (forall a b c, R a b -> R b c -> R a c) ->
  (forall p arg w, R w (snd (walkFn os root p arg w))) ->
  forall e p w, R w (snd (walk os root p e w)).
Proof.
  intros Hrefl Htrans Hfn.
  induction e as [| | |names IH] using entry_induction; intros p w;
    try apply Hfn.
  rewrite walk_directory. revert w.
  induction IH as [|[name child] names Hchild _ IHnames]; intros w;
    [apply Hrefl|].
  cbn [walkNames snd] in *.
  specialize (Hchild (Join p name) w).
  destruct (walk os root (Join p name) child w) as [[err|] w'];
    cbn [snd] in *; [exact Hchild|].
  exact (Htrans _ _ _ Hchild (IHnames w')).
Qed.

Lemma files_say (m : message) (w : world) : files (say m w) = files w.
Proof. reflexivity. Qed.

Lemma files_run (os : platform) (root : path) (tree : entry) (w : world) :
  files (snd (run os root tree w)) = files (snd (walk os root root tree w)).
Proof.
  unfold run. destruct (walk os root root tree w) as [[err|] w'];
    reflexivity.
Qed.

(** What one call of the literal can do to the file at [q]. *)
Lemma walkFn_frame (os : platform) (root p : path) (arg : FileInfo + error)
    (w : world) (q : path) :
  Ext q <> ".jpg"%string \/ Dir q <> root ->
  files (snd (walkFn os root p arg w)) !! q = files w !! q \/
  (Ext q = ".png"%string /\ files (snd (walkFn os root p arg w)) !! q = None).
Proof.
  intros Hq.
  assert (Hout : forall name, Join root (jpgName name ".png") <> q).
  { intros name Heq. subst q. destruct Hq as [Hq|Hq]; apply Hq.
    - unfold Ext. rewrite Base_Join. apply nameExt_jpg.
    - apply Dir_Join. }
  unfold walkFn. destruct arg as [info|err]; [|left; reflexivity].
  destruct (IsDir info); [left; reflexivity|].
  destruct (String.eqb_spec (Ext p) ".png") as [He|He]; [|left; reflexivity].
  rewrite He.
  destruct (ReadFile os p w) as [b|err]; [|left; reflexivity].
  destruct (ToJpeg os b) as [j|err]; [|left; reflexivity].
  unfold WriteFile, RemoveAll.
  specialize (Hout (Base p)).
  destruct (write_outcome os _); cbn [snd say files].
  - destruct (remove_denied os p); cbn [snd say files].
    + left. apply lookup_insert_ne. exact Hout.
    + destruct (decide (p = q)) as [->|Hpq].
      * right. split; [exact He | apply lookup_delete_eq].
      * left. rewrite lookup_delete_ne by exact Hpq.
        apply lookup_insert_ne. exact Hout.
  - left. reflexivity.
  - left. apply lookup_insert_ne. exact Hout.
Qed.

Lemma isPng_false (p : path) : isPng p = false -> Ext p <> ".png"%string.
Proof. unfold isPng. apply String.eqb_neq. Qed.

Lemma isPng_true (p : path) : isPng p = true -> Ext p = ".png"%string.
Proof. unfold isPng. apply String.eqb_eq. Qed.

(** One call of the literal on a regular file prints or logs exactly one
    line when the extension is [.png], and does nothing otherwise. *)
Lemma walkFn_lines (os : platform) (root p : path) (w : world) :
  if isPng p
  then exists m, isFatal m = false /\
                 lines (snd (walkFn os root p file w)) = lines w ++ [m]
  else snd (walkFn os root p file w) = w.
Proof.
  destruct (isPng p) eqn:Hp.
  - apply isPng_true in Hp. unfold walkFn, file. cbn [IsDir]. rewrite Hp.
    cbn [String.eqb Ascii.eqb Bool.eqb].
    destruct (ReadFile os p w) as [b|err];
      [|eexists; split; [|reflexivity]; reflexivity].
    destruct (ToJpeg os b) as [j|err];
      [|eexists; split; [|reflexivity]; reflexivity].
    unfold WriteFile, RemoveAll.
    destruct (write_outcome os _);
      [|eexists; split; [|reflexivity]; reflexivity..].
    destruct (remove_denied os p);
      eexists; (split; [|reflexivity]); reflexivity.
  - apply isPng_false in Hp. rewrite walkFn_other by exact Hp. reflexivity.
Qed.



(** The literal on an existing [.png] file when every step succeeds. *)
Lemma walkFn_converted (os : platform) (root p : path) (w : world)
    (d j : data) :
  Ext p = ".png"%string ->
  files w !! p = Some d ->
  read_denied os p = false ->
  ToJpeg os d = inl j ->
  write_outcome os (Join root (jpgName (Base p) ".png")) = Written ->
  remove_denied os p = false ->
  walkFn os root p file w
  = (None,
     say (Successful (Join root (jpgName (Base p) ".png")))
       (World (delete p (<[Join root (jpgName (Base p) ".png") := j]>
                           (files w)))
          (lines w))).
Proof.
  intros He Hd Hr Hc Hw Hrm.
  eapply (walkFn_succeeds os root p w) with (b := d) (j := j).
  - exact He.
  - unfold ReadFile. rewrite Hd, Hr. reflexivity.
  - exact Hc.
  - unfold WriteFile. rewrite Hw. reflexivity.
  - unfold RemoveAll. cbn [files]. rewrite Hrm. reflexivity.
Qed.

(** *** Further properties *)

(** X8: whatever the tree, the platform and its failures, a run changes no
    file other than [.jpg] files directly in the root directory and [.png]
    files, and the only thing it ever does to a [.png] file is to remove
    it. *)
Theorem run_touches_only_png_and_root_jpg (os : platform) (root : path)
    (tree : entry) (w : world) (q : path) :
  Ext q <> ".jpg"%string \/ Dir q <> root ->
  files (snd (run os root tree w)) !! q = files w !! q \/
  (Ext q = ".png"%string /\ files (snd (run os root tree w)) !! q = None).
Proof.
  intros Hq. rewrite files_run.
  apply (walk_preserves os root
           (fun a b => files b !! q = files a !! q \/
                       (Ext q = ".png"%string /\ files b !! q = None))).
  - intros a. left. reflexivity.
  - intros a b c [Hab|[He Hab]] [Hbc|[He' Hbc]]; auto.
    + left. congruence.
    + right. split; [exact He | congruence].
  - intros p arg a. apply walkFn_frame. exact Hq.
Qed.

Lemma run_touches_only_png_and_root_jpg_witness :
  let q := Join (Join directoryPath "sub") "notes.txt" in
  files (snd (run plain directoryPath twin_tree twin_world)) !! q
  = files twin_world !! q \/
  (Ext q = ".png"%string /\
   files (snd (run plain directoryPath twin_tree twin_world)) !! q = None).
Proof.
  intros q.
  apply (run_touches_only_png_and_root_jpg plain directoryPath twin_tree
           twin_world q).
  left. discriminate.
Defined.



(** X10: whatever the tree, the lines already printed stay in front; a run
    adds lines of the literal and then, exactly when it ends with status 1,
    the fatal line as the last one; otherwise the status is 0. *)
Theorem log_is_append_only (os : platform) (root : path) (tree : entry)
    (w : world) :
  exists new,
    Forall (fun m => isFatal m = false) new /\
    ((fst (run os root tree w) = 0 /\
      lines (snd (run os root tree w)) = lines w ++ new) \/
     (fst (run os root tree w) = 1 /\
      exists err,
        lines (snd (run os root tree w)) = lines w ++ new ++ [Fatal err])).
Proof.
  assert (H : exists new,
             lines (snd (walk os root root tree w)) = lines w ++ new /\
             Forall (fun m => isFatal m = false) new).
  { apply (walk_preserves os root
             (fun a b => exists new,
                lines b = lines a ++ new /\
                Forall (fun m => isFatal m = false) new)).
    - intros a. exists []. rewrite app_nil_r. split; [reflexivity|constructor].
    - intros a b c (n1 & H1 & F1) (n2 & H2 & F2). exists (n1 ++ n2).
      rewrite H2, H1, <- app_assoc. split; [reflexivity|].
      apply Forall_app. split; assumption.
    - intros p [info|err] a.
      + destruct info as [[|]].
        * exists []. cbn. rewrite app_nil_r. split; [reflexivity|constructor].
        * pose proof (walkFn_lines os root p a) as Hl. unfold file in Hl.
          destruct (isPng p).
          -- destruct Hl as (m & Hm & Hl). exists [m].
             split; [exact Hl | constructor; [exact Hm | constructor]].
          -- rewrite Hl. exists []. rewrite app_nil_r.
             split; [reflexivity|constructor].
      + exists []. cbn. rewrite app_nil_r. split; [reflexivity|constructor]. }
  destruct H as (new & Hl & Hf). exists new. split; [exact Hf|].
  unfold run. destruct (walk os root root tree w) as [[err|] w'];
    cbn [fst snd] in *.
  - right. split; [reflexivity|]. exists err. unfold say. cbn [lines].
    rewrite Hl, <- app_assoc. reflexivity.
  - left. split; [reflexivity | exact Hl].
Qed.



(** X12: two different [.png] files with the same base name share one
    output path: when both are converted without failure, one after the
    other, the JPEG bytes of the first are overwritten by those of the
    second, and both originals are removed. *)
Theorem same_base_name_overwrites (os : platform) (root p1 p2 : path)
    (w : world) (d1 d2 j1 j2 : data) :
  p1 <> p2 ->
  Ext p1 = ".png"%string ->
  Base p2 = Base p1 ->
  files w !! p1 = Some d1 ->
  files w !! p2 = Some d2 ->
  read_denied os p1 = false ->
  read_denied os p2 = false ->
  ToJpeg os d1 = inl j1 ->
  ToJpeg os d2 = inl j2 ->
  write_outcome os (Join root (jpgName (Base p1) ".png")) = Written ->
  remove_denied os p1 = false ->
  remove_denied os p2 = false ->
  files (convertAll os root [p1] w) !! Join root (jpgName (Base p1) ".png")
  = Some j1 /\
  files (convertAll os root [p1; p2] w) !! Join root (jpgName (Base p1) ".png")
  = Some j2 /\
  files (convertAll os root [p1; p2] w) !! p1 = None /\
  files (convertAll os root [p1; p2] w) !! p2 = None.
Proof.
  intros Hne He1 Hb Hd1 Hd2 Hr1 Hr2 Hc1 Hc2 Hw Hrm1 Hrm2.
  assert (He2 : Ext p2 = ".png"%string) by (unfold Ext; rewrite Hb; exact He1).
  pose proof (output_path_differs root p1 (Base p1) He1) as Ho1.
  pose proof (output_path_differs root p2 (Base p1) He2) as Ho2.
  unfold convertAll. cbn [fold_left].
  rewrite (walkFn_converted os root p1 w d1 j1 He1 Hd1 Hr1 Hc1 Hw Hrm1).
  cbn [snd].
  set (out := Join root (jpgName (Base p1) ".png")) in *.
  set (w1 := say (Successful out) _).
  assert (Hd2' : files w1 !! p2 = Some d2).
  { unfold w1. cbn [say files].
    rewrite lookup_delete_ne by exact Hne.
    rewrite lookup_insert_ne by exact Ho2. exact Hd2. }
  assert (Hw2 : write_outcome os (Join root (jpgName (Base p2) ".png"))
                = Written) by (rewrite Hb; exact Hw).
  rewrite (walkFn_converted os root p2 w1 d2 j2 He2 Hd2' Hr2 Hc2 Hw2 Hrm2).
  rewrite Hb. fold out. cbn [snd say files].
  assert (Hf1 : files w1 = delete p1 (<[out := j1]> (files w)))
    by reflexivity.
  split; [|split; [|split]].
  - rewrite Hf1. rewrite lookup_delete_ne by congruence.
    apply lookup_insert_eq.
  - rewrite lookup_delete_ne by congruence. apply lookup_insert_eq.
  - rewrite lookup_delete_ne by congruence.
    rewrite lookup_insert_ne by exact Ho1. rewrite Hf1.
    apply lookup_delete_eq.
  - apply lookup_delete_eq.
Qed.

Lemma same_base_name_overwrites_witness :
  let out := Join directoryPath "a.jpg" in
  files (convertAll plain directoryPath [top_png] twin_world) !! out
  = Some ["O"; "N"; "E"]%char /\
  files (convertAll plain directoryPath [top_png; nested_png] twin_world) !! out
  = Some ["T"; "W"; "O"]%char /\
  files (convertAll plain directoryPath [top_png; nested_png] twin_world)
    !! top_png = None /\
  files (convertAll plain directoryPath [top_png; nested_png] twin_world)
    !! nested_png = None.
Proof.
  intros out.
  apply (same_base_name_overwrites plain directoryPath top_png nested_png
           twin_world ["O"; "N"; "E"]%char ["T"; "W"; "O"]%char
           ["O"; "N"; "E"]%char ["T"; "W"; "O"]%char);
    try reflexivity; try discriminate; vm_compute; reflexivity.
Defined.

(** X13: on an existing [.png] file, the literal prints the success line
    exactly when it has removed the file; in every other case the last line
    is a failure line and the file is still there. *)
Theorem success_line_iff_removed (os : platform) (root p : path) (w : world)
    (d : data) :
  Ext p = ".png"%string ->
  files w !! p = Some d ->
  (lines (snd (walkFn os root p file w))
   = lines w ++ [Successful (Join root (jpgName (Base p) ".png"))]
   <-> files (snd (walkFn os root p file w)) !! p = None).
Proof.
  intros He Hd.
  pose proof (output_path_differs root p (Base p) He) as Hne.
  unfold walkFn, file, ReadFile, WriteFile, RemoveAll. cbn [IsDir].
  rewrite He, Hd. cbn [String.eqb Ascii.eqb Bool.eqb].
  set (out := Join root (jpgName (Base p) ".png")) in *.
  assert (Hlast : forall m,
            lines w ++ [m] = lines w ++ [Successful out] -> m = Successful out).
  { intros m H. apply app_inv_head in H. congruence. }
  destruct (read_denied os p); cbn [snd say files lines].
  { split; [intros H; apply Hlast in H; discriminate H | congruence]. }
  destruct (ToJpeg os d) as [j|errc]; cbn [snd say files lines].
  2:{ split; [intros H; apply Hlast in H; discriminate H | congruence]. }
  destruct (write_outcome os out); cbn [snd say files lines].
  - destruct (remove_denied os p); cbn [snd say files lines].
    + split; [intros H; apply Hlast in H; discriminate H|].
      rewrite lookup_insert_ne by exact Hne. congruence.
    + split; [intros _; apply lookup_delete_eq | reflexivity].
  - split; [intros H; apply Hlast in H; discriminate H | congruence].
  - split; [intros H; apply Hlast in H; discriminate H|].
    rewrite lookup_insert_ne by exact Hne. congruence.
Qed.

Lemma success_line_iff_removed_witness :
  lines (snd (walkFn plain directoryPath top_png file top_world))
  = lines top_world ++ [Successful (Join directoryPath "a.jpg")]
  <-> files (snd (walkFn plain directoryPath top_png file top_world))
        !! top_png = None.
Proof.
  apply (success_line_iff_removed plain directoryPath top_png top_world
           ["P"; "N"; "G"]%char); [reflexivity | vm_compute; reflexivity].
Defined.

(** X14: the path the literal writes to has the extension [.jpg] and lies
    directly in the root directory, so the literal does nothing when it is
    called on a file it has written. *)
Theorem output_is_not_converted_again (os : platform) (root : path)
    (baseName : string) (w : world) :
  Ext (Join root (jpgName baseName ".png")) = ".jpg"%string /\
  Dir (Join root (jpgName baseName ".png")) = root /\
  walkFn os root (Join root (jpgName baseName ".png")) file w = (None, w).
Proof.
  assert (He : Ext (Join root (jpgName baseName ".png")) = ".jpg"%string).
  { unfold Ext. rewrite Base_Join. apply nameExt_jpg. }
  split; [exact He|]. split; [apply Dir_Join|].
  apply walkFn_other. rewrite He. discriminate.
Qed.

End WalkerMore.
